(** * Tic-Tac-Toe: board, rules, turn loop and minimax search

    A shallow embedding of the three program variants
    (YC_Project2_PartA.py: two humans, YC_Project2_PartB.py: human
    against minimax, YC_Project2_PartC.py: human against a trained
    classifier) and the properties of their shared game core.

    Conventions of the embedding.
    - A cell is the Python one-character string the program stores:
      [" "], ["X"] or ["O"].  A board is the nested list [Board.c].
    - Indexing a Python list out of range raises [IndexError]; looking up
      a missing dictionary key raises [KeyError].  Both are kept, in the
      result type [res].
    - [minimax] mutates the list it is given and restores it; the
      embedding threads the board through every call and returns it.
    - [minimax] is recursive on a board that is not a structural subterm,
      so it takes a [fuel] argument; running out of fuel is the third
      outcome of [res].  The theorems show that fuel above the number of
      empty cells is always enough.
    - A negative index into a Python list counts from its end; the
      integer-indexed accessors [getitemZ] and [setitemZ] keep that, for
      the one place where the program indexes with a computed integer
      ([model_move]).
    - The trained classifier and the random generator are outside the
      program: [model_move] takes the ranked class labels as a function
      [rank] of the feature vector and the drawn position as [k].
    - Standard input is a list of lines, each taken as what the input
      handling makes of it ([PartA.entry]).  When the lines run out,
      [input()] raises [EOFError]: PartA and PartB let it through,
      [get_move_from_user] of PartC catches it.  [int] raises
      [ValueError] on a token that [str.isdigit] accepts and it cannot
      convert.
    - Python bounds the depth of the call stack.  [human_move] of PartC
      calls itself after every rejected entry; it takes the depth that is
      left as an argument and raises [RecursionError] beyond it.
    - Console output is not modelled, except where it is the only carrier
      of a result (the message of [checkEnd], the cell reported by
      [computer_move]). *)

From Stdlib Require Import ZArith.
From stdpp Require Import base decidable option list strings gmap.

Local Open Scope Z_scope.
Local Open Scope string_scope.

(** ** Results of fallible, possibly diverging code *)

Inductive exn : Type :=
| IndexError | KeyError | ValueError | EOFError | RecursionError.

Inductive res (A : Type) : Type :=
| Ret (a : A)
| Raise (e : exn)
| OutOfFuel.
Arguments Ret {A} a.
Arguments Raise {A} e.
Arguments OutOfFuel {A}.

(** Sequencing: an exception or exhausted fuel ends the computation.
    Registered as stdpp's [MBind], which provides [x ← m; k]. *)
#[export] Instance res_bind : MBind res := fun A B k m =>
  match m with
  | Ret a => k a
  | Raise e => Raise e
  | OutOfFuel => OutOfFuel
  end.

(** ** Board *)

Abbreviation Cell := string (only parsing).
Abbreviation Board := (list (list string)) (only parsing).

(** [Board.__init__]. *)
Definition new_board : Board :=
  [[" "; " "; " "]; [" "; " "; " "]; [" "; " "; " "]].

(** [l[i]] for a non-negative index. *)
Definition getitem {A : Type} (l : list A) (i : nat) : res A :=
  match l !! i with
  | Some x => Ret x
  | None => Raise IndexError
  end.

(** [l[i] = v] for a non-negative index. *)
Definition setitem {A : Type} (l : list A) (i : nat) (v : A) : res (list A) :=
  if (i <? length l)%nat then Ret (<[i := v]> l) else Raise IndexError.

(** [board[r][c]]. *)
Definition get (board : Board) (r c : nat) : res Cell :=
  row ← getitem board r; getitem row c.

(** [board[r][c] = v]: the row object is fetched, then updated in place. *)
Definition set (board : Board) (r c : nat) (v : Cell) : res Board :=
  row ← getitem board r;
  row' ← setitem row c v;
  setitem board r row'.

(** [l[i]] for any integer index: a negative index counts from the end
    of the list. *)
Definition getitemZ {A : Type} (l : list A) (i : Z) : res A :=
  if (0 <=? i)%Z then getitem l (Z.to_nat i)
  else if (- Z.of_nat (length l) <=? i)%Z
       then getitem l (Z.to_nat (i + Z.of_nat (length l)))
       else Raise IndexError.

(** [l[i] = v] for any integer index. *)
Definition setitemZ {A : Type} (l : list A) (i : Z) (v : A) : res (list A) :=
  if (0 <=? i)%Z then setitem l (Z.to_nat i) v
  else if (- Z.of_nat (length l) <=? i)%Z
       then setitem l (Z.to_nat (i + Z.of_nat (length l))) v
       else Raise IndexError.

(** [board[r][c]] and [board[r][c] = v] for any integer indices. *)
Definition getZ (board : Board) (r c : Z) : res Cell :=
  row ← getitemZ board r; getitemZ row c.

Definition setZ (board : Board) (r c : Z) (v : Cell) : res Board :=
  row ← getitemZ board r;
  row' ← setitemZ row c v;
  setitemZ board r row'.

(** [for r in range(3): for c in range(3)]: the cells in row-major order. *)
Definition range3 : list nat := seq 0 3.
Definition cells : list (nat * nat) :=
  r ← range3; c ← range3; [(r, c)].

(** A loop over cells whose body may raise; [s] is the loop's state. *)
Fixpoint for_cells {S : Type} (cs : list (nat * nat))
    (body : nat -> nat -> S -> res S) (s : S) : res S :=
  match cs with
  | [] => Ret s
  | (r, c) :: cs' => s' ← body r c s; for_cells cs' body s'
  end.

(** ** Game state and the rules shared by the three variants *)

(** [Game]: the board object and whose turn it is. *)
Record Game : Type := mkGame { board : Board; turn : string }.

(** [Game.__init__], and the reset at the top of [playGame]. *)
Definition new_game : Game := mkGame new_board "X".

(** [Game.validateEntry] (the same in the three variants): the range
    test comes first, so the board is only indexed with [row], [col] in
    0..2. *)
Definition validateEntry (g : Game) (row col : Z) : res bool :=
  if negb ((0 <=? row)%Z && (row <=? 2)%Z && (0 <=? col)%Z && (col <=? 2)%Z)
  then Ret false
  else
    x ← get (board g) (Z.to_nat row) (Z.to_nat col);
    if negb (x =? " ") then Ret false else Ret true.

(** [Game.checkFull]: returns [False] at the first empty cell. *)
Fixpoint checkFull_from (b : Board) (cs : list (nat * nat)) : res bool :=
  match cs with
  | [] => Ret true
  | (r, c) :: cs' =>
      x ← get b r c;
      if x =? " " then Ret false else checkFull_from b cs'
  end.

Definition checkFull (g : Game) : res bool := checkFull_from (board g) cells.

(** The chained comparison [b[p] == b[q] == b[s] == t], evaluated left
    to right and stopping at the first comparison that fails. *)
Definition line_is (b : Board) (p q s : nat * nat) (t : Cell) : res bool :=
  x ← get b p.1 p.2;
  y ← get b q.1 q.2;
  if x =? y then
    z ← get b s.1 s.2;
    if y =? z then Ret (z =? t) else Ret false
  else Ret false.

(** [winner == mark], where [winner] may be [None]. *)
Definition winner_is (winner : option Cell) (mark : Cell) : bool :=
  match winner with
  | Some w => w =? mark
  | None => false
  end.

(** A sequence of [if ...: return True] tests ending in [return False]. *)
Fixpoint any_check (checks : list (res bool)) : res bool :=
  match checks with
  | [] => Ret false
  | chk :: rest => w ← chk; if (w : bool) then Ret true else any_check rest
  end.

(** The body shared by [checkWin] (PartA, PartB: [t = self.turn]) and
    [checkWin_for_turn] (PartC): rows, then columns, then diagonals. *)
Definition checkWin_for (b : Board) (t : Cell) : res bool :=
  any_check
    (((fun r : nat => line_is b (r, 0) (r, 1) (r, 2) t)%nat <$> range3)
     ++ ((fun c : nat => line_is b (0, c) (1, c) (2, c) t)%nat <$> range3)
     ++ [line_is b (0, 0) (1, 1) (2, 2) t;
         line_is b (0, 2) (1, 1) (2, 0) t]%nat)%list.

(** ** PartA: two human players *)

Module PartA.

(** [Game.switchPlayer]. *)
Definition switchPlayer (g : Game) : Game :=
  if turn g =? "X" then mkGame (board g) "O" else mkGame (board g) "X".

(** [Game.checkWin]: the current player's lines. *)
Definition checkWin (g : Game) : res bool := checkWin_for (board g) (turn g).

(** [Game.checkEnd]: the result and the line it prints. *)
Definition checkEnd (g : Game) : res (bool * list string) :=
  w ← checkWin g;
  if (w : bool) then Ret (true, [turn g +:+ " IS THE WINNER!!!"])
  else
    f ← checkFull g;
    if (f : bool) then Ret (true, ["DRAW! NOBODY WINS!"]) else Ret (false, []).

(** What the input handling makes of one line of input.  It re-prompts
    without looking at the game when the line is empty once stripped
    ([Blank]) and when, split by [re.split], it has one token, more than
    two, or a token that [str.isdigit] rejects ([Malformed]).  It obtains
    [row] and [col] when [int] converts both tokens ([Entry]).  When both
    tokens pass [str.isdigit] and [int] rejects one of them, [int] raises
    ValueError, which nothing catches ([NotInt]). *)
Inductive entry : Type := Blank | Malformed | Entry (row col : Z) | NotInt.

(** How one line of input leaves the game. *)
Inductive progress : Type := Rejected | Continues | Ended.

(** One pass through the inner [while True] of [playGame] and, when the
    entry is accepted, the rest of the outer loop's body: place the mark,
    [checkEnd], and [switchPlayer] if the game goes on. *)
Definition playGame_step (g : Game) (e : entry) : res (Game * progress) :=
  match e with
  | Blank | Malformed => Ret (g, Rejected)
  | NotInt => Raise ValueError
  | Entry row col =>
      ok ← validateEntry g row col;
      if negb (ok : bool) then Ret (g, Rejected)
      else
        c ← set (board g) (Z.to_nat row) (Z.to_nat col) (turn g);
        let g := mkGame c (turn g) in
        '(over, _) ← checkEnd g;
        if (over : bool) then Ret (g, Ended) else Ret (switchPlayer g, Continues)
  end.

(** The loop of [Game.playGame] on the lines of input available.  It
    returns when [checkEnd] has ended the game; when the lines run out
    before that, [input()] raises EOFError, which nothing catches. *)
Fixpoint playGame_from (inputs : list entry) (g : Game) : res Game :=
  match inputs with
  | [] => Raise EOFError
  | e :: rest =>
      '(g', p) ← playGame_step g e;
      match p with
      | Ended => Ret g'
      | _ => playGame_from rest g'
      end
  end.

(** [Game.playGame]: a new board, X to move, then the loop. *)
Definition playGame (inputs : list entry) : res Game :=
  playGame_from inputs new_game.

(** The games reached from a new game by [n] accepted moves none of
    which ended the game, rejected entries in between not counted. *)
Inductive reached : nat -> Game -> Prop :=
| reached_start : reached 0 new_game
| reached_rejected n g e g' :
    reached n g -> playGame_step g e = Ret (g', Rejected) -> reached n g'
| reached_accepted n g e g' :
    reached n g -> playGame_step g e = Ret (g', Continues) ->
    reached (S n) g'.

End PartA.

(** ** PartB: human against minimax *)

Module PartB.

(** [a == b == c and a != " "] on the cells at three coordinates, with
    Python's left-to-right evaluation and short-circuiting; returns the
    first cell when the test holds. *)
Definition line (b : Board) (p q s : nat * nat) : res (option Cell) :=
  x ← get b p.1 p.2;
  y ← get b q.1 q.2;
  if x =? y then
    z ← get b s.1 s.2;
    if y =? z then
      x' ← get b p.1 p.2;
      if negb (x' =? " ") then Ret (Some x') else Ret None
    else Ret None
  else Ret None.

(** First [Some] of a sequence of checks (a [for] loop with [return]). *)
Fixpoint first_line (checks : list (res (option Cell))) : res (option Cell) :=
  match checks with
  | [] => Ret None
  | chk :: rest =>
      w ← chk;
      match w with
      | Some x => Ret (Some x)
      | None => first_line rest
      end
  end.

(** [Game.check_winner_static]. *)
Definition check_winner_static (b : Board) : res (option Cell) :=
  first_line
    (((fun r : nat => line b (r, 0) (r, 1) (r, 2))%nat <$> range3)
     ++ ((fun c : nat => line b (0, c) (1, c) (2, c))%nat <$> range3)
     ++ [line b (0, 0) (1, 1) (2, 2); line b (0, 2) (1, 1) (2, 0)]%nat)%list.

(** [all(cell != " " for row in board for cell in row)]. *)
Definition all_filled (board : Board) : bool :=
  forallb (fun row => forallb (fun cell => negb (cell =? " ")) row) board.

(** [Game.minimax].  Returns the score and the board as the call leaves it. *)
Fixpoint minimax (fuel : nat) (board : Board) (is_maximizing : bool)
    : res (Z * Board) :=
  match fuel with
  | O => OutOfFuel
  | S fuel' =>
      winner ← check_winner_static board;
      if winner_is winner "O" then Ret (1, board)
      else if winner_is winner "X" then Ret (-1, board)
      else if all_filled board then Ret (0, board)
      else if is_maximizing then
        '(board, best_score) ←
          for_cells cells (fun r c '(board, best_score) =>
            x ← get board r c;
            if x =? " " then
              board ← set board r c "O";
              '(score, board) ← minimax fuel' board false;
              board ← set board r c " ";
              Ret (board, if (score >? best_score)%Z then score else best_score)
            else Ret (board, best_score))
          (board, -999);
        Ret (best_score, board)
      else
        '(board, best_score) ←
          for_cells cells (fun r c '(board, best_score) =>
            x ← get board r c;
            if x =? " " then
              board ← set board r c "X";
              '(score, board) ← minimax fuel' board true;
              board ← set board r c " ";
              Ret (board, if (score <? best_score)%Z then score else best_score)
            else Ret (board, best_score))
          (board, 999);
        Ret (best_score, board)
  end.

(** [Game.computer_move] on the game's board.  The first component is the
    cell the function reports ("Computer places O at row #r and column
    #c"), [None] standing for "Computer has no moves!". *)
Definition computer_move (fuel : nat) (b : Board)
    : res (option (nat * nat) * Board) :=
  '(b, best_score, best_move) ←
    for_cells cells (fun r c '(b, best_score, best_move) =>
      x ← get b r c;
      if x =? " " then
        b ← set b r c "O";
        '(score, b) ← minimax fuel b false;
        b ← set b r c " ";
        if (score >? best_score)%Z then Ret (b, score, Some (r, c))
        else Ret (b, best_score, best_move)
      else Ret (b, best_score, best_move))
    (b, -999, None);
  match best_move with
  | Some (r, c) => b ← set b r c "O"; Ret (Some (r, c), b)
  | None => Ret (None, b)
  end.

(** [Game.checkWin] and [Game.checkEnd] of PartB, the same text as in
    PartA: the lines of [self.turn], then fullness. *)
Definition checkWin (g : Game) : res bool := checkWin_for (board g) (turn g).

Definition checkEnd (g : Game) : res (bool * list string) :=
  w ← checkWin g;
  if (w : bool) then Ret (true, [turn g +:+ " IS THE WINNER!!!"])
  else
    f ← checkFull g;
    if (f : bool) then Ret (true, ["DRAW! NOBODY WINS!"]) else Ret (false, []).

(** One pass through the inner [while True] of PartB's [playGame] and,
    when the entry is accepted, the rest of the outer loop's body: the
    human's mark, [self.turn = 'X'], [checkEnd], [self.turn = 'O'],
    [computer_move], [checkEnd], [self.turn = 'X'].  The third component
    is what [checkEnd] printed when it ended the game. *)
Definition playGame_step (fuel : nat) (g : Game) (e : PartA.entry)
    : res (Game * PartA.progress * list string) :=
  match e with
  | PartA.Blank | PartA.Malformed => Ret (g, PartA.Rejected, [])
  | PartA.NotInt => Raise ValueError
  | PartA.Entry row col =>
      ok ← validateEntry g row col;
      if negb (ok : bool) then Ret (g, PartA.Rejected, [])
      else
        c ← set (board g) (Z.to_nat row) (Z.to_nat col) (turn g);
        let g := mkGame c "X" in
        '(over, msg) ← checkEnd g;
        if (over : bool) then Ret (g, PartA.Ended, msg)
        else
          let g := mkGame (board g) "O" in
          '(_, c) ← computer_move fuel (board g);
          let g := mkGame c (turn g) in
          '(over, msg) ← checkEnd g;
          if (over : bool) then Ret (g, PartA.Ended, msg)
          else Ret (mkGame (board g) "X", PartA.Continues, [])
  end.

(** The loop of PartB's [Game.playGame] on the lines of input available.
    It returns when [checkEnd] has ended the game, here with what
    [checkEnd] printed; when the lines run out before that, [input()]
    raises EOFError, which nothing catches. *)
Fixpoint playGame_from (fuel : nat) (inputs : list PartA.entry) (g : Game)
    : res (Game * list string) :=
  match inputs with
  | [] => Raise EOFError
  | e :: rest =>
      '(g', p, msg) ← playGame_step fuel g e;
      match p with
      | PartA.Ended => Ret (g', msg)
      | _ => playGame_from fuel rest g'
      end
  end.

(** PartB's [Game.playGame]: a new board, X to move, then the loop. *)
Definition playGame (fuel : nat) (inputs : list PartA.entry)
    : res (Game * list string) :=
  playGame_from fuel inputs new_game.

(** The games in which PartB's [playGame] waits for the human, after [n]
    rounds (a human move and the computer's reply) that did not end the
    game. *)
Inductive reached (fuel : nat) : nat -> Game -> Prop :=
| reached_start : reached fuel 0 new_game
| reached_rejected n g e g' msg :
    reached fuel n g ->
    playGame_step fuel g e = Ret (g', PartA.Rejected, msg) ->
    reached fuel n g'
| reached_round n g e g' msg :
    reached fuel n g ->
    playGame_step fuel g e = Ret (g', PartA.Continues, msg) ->
    reached fuel (S n) g'.

End PartB.

(** ** PartC: human against a trained classifier *)

Module PartC.

(** [Game.checkWin_for_turn]. *)
Definition checkWin_for_turn (g : Game) (t : Cell) : res bool :=
  checkWin_for (board g) t.

(** [Game.checkEnd]: the result and the line it prints. *)
Definition checkEnd (g : Game) : res (bool * list string) :=
  x ← checkWin_for_turn g "X";
  if (x : bool) then Ret (true, ["X IS THE WINNER!!!"])
  else
    o ← checkWin_for_turn g "O";
    if (o : bool) then Ret (true, ["O IS THE WINNER!!!"])
    else
      f ← checkFull g;
      if (f : bool) then Ret (true, ["DRAW! NOBODY WINS!"]) else Ret (false, []).

(** The dictionary [mapping] of [board_to_model_features]. *)
Definition mapping : gmap string Z :=
  {[ "X" := 1%Z; "O" := (-1)%Z; " " := 0%Z ]}.

(** [mapping[k]]. *)
Definition mapping_at (k : string) : res Z :=
  match mapping !! k with
  | Some v => Ret v
  | None => Raise KeyError
  end.

(** The list comprehension [[f(r, c) for r in range(3) for c in range(3)]]. *)
Fixpoint comprehension {A : Type} (f : nat -> nat -> res A)
    (cs : list (nat * nat)) : res (list A) :=
  match cs with
  | [] => Ret []
  | (r, c) :: cs' => x ← f r c; xs ← comprehension f cs'; Ret (x :: xs)
  end.

(** [Game.board_to_model_features]. *)
Definition board_to_model_features (g : Game) : res (list Z) :=
  comprehension (fun r c => x ← get (board g) r c; mapping_at x) cells.

(** [Game.get_move_from_user] on the lines of input available, with
    the lines it leaves unread.  It re-prompts on a blank or malformed
    line and returns the numbers of the first other line; when the lines
    run out it catches the EOFError of [input()] and returns [None]; the
    ValueError of [int] passes through.  [depth] is explained at
    [human_move]: at depth 0 the call can prompt and read, but a line
    that is not blank reaches [re.split], whose frames the call stack has
    no room for, and RecursionError is raised. *)
Fixpoint get_move_from_user (depth : nat) (lines : list PartA.entry)
    : res (option (Z * Z) * list PartA.entry) :=
  match lines with
  | [] => Ret (None, [])
  | PartA.Blank :: rest => get_move_from_user depth rest
  | e :: rest =>
      match depth with
      | O => Raise RecursionError
      | S _ =>
          match e with
          | PartA.Entry row col => Ret (Some (row, col), rest)
          | PartA.NotInt => Raise ValueError
          | _ => get_move_from_user depth rest
          end
      end
  end.

(** [Game.human_move].  After a rejected entry it calls itself, one
    frame deeper on the call stack each time, and Python bounds the depth
    of the stack.  [depth] counts the nested calls of [human_move] for
    which the stack still has room to split a line; in the call nested
    below those, only a blank line and the end of input are handled. *)
Fixpoint human_move (depth : nat) (lines : list PartA.entry) (g : Game)
    : res (bool * Game) :=
  '(mv, rest) ← get_move_from_user depth lines;
  match mv with
  | None => Ret (false, g)
  | Some (row, col) =>
      ok ← validateEntry g row col;
      if negb (ok : bool) then
        match depth with
        | O => Raise RecursionError
        | S depth' => human_move depth' rest g
        end
      else
        c ← set (board g) (Z.to_nat row) (Z.to_nat col) "X";
        Ret (true, mkGame c (turn g))
  end.

(** [Game.get_available_moves]: the list comprehension with its filter. *)
Fixpoint available_from (b : Board) (cs : list (nat * nat))
    : res (list (nat * nat)) :=
  match cs with
  | [] => Ret []
  | (r, c) :: cs' =>
      x ← get b r c;
      rest ← available_from b cs';
      Ret (if x =? " " then (r, c) :: rest else rest)
  end.

Definition get_available_moves (g : Game) : res (list (nat * nat)) :=
  available_from (board g) cells.

(** What [model_move] prints: nothing, "Computer places O at row #r and
    column #c", or "Computer falls back and places O at row #r and column
    #c". *)
Inductive report : Type :=
| NoMove
| Placed (r c : Z)
| FellBack (r c : nat).

(** The [for idx, _p in ranked] loop of [model_move]: [divmod(int(idx), 3)]
    rounds towards minus infinity, as [Z.div] and [Z.modulo] do for the
    divisor 3, and the board is indexed with the result as it is. *)
Fixpoint try_ranked (ranked : list Z) (b : Board)
    : res (option (Board * Z * Z)) :=
  match ranked with
  | [] => Ret None
  | idx :: rest =>
      let r := (idx / 3)%Z in
      let c := (idx mod 3)%Z in
      x ← getZ b r c;
      if x =? " " then b' ← setZ b r c "O"; Ret (Some (b', r, c))
      else try_ranked rest b
  end.

(** [Game.model_move].  The trained model is outside the program: [rank]
    gives, for the feature vector, the class labels in the order of
    [ranked] (by decreasing probability).  [k] is the position
    [random.choice] draws in [moves]. *)
Definition model_move (rank : list Z -> list Z) (k : nat) (g : Game)
    : res (Game * report) :=
  moves ← get_available_moves g;
  match moves with
  | [] => Ret (g, NoMove)
  | _ =>
      feats ← board_to_model_features g;
      hit ← try_ranked (rank feats) (board g);
      match hit with
      | Some (b', r, c) => Ret (mkGame b' (turn g), Placed r c)
      | None =>
          '(r, c) ← getitem moves k;
          b' ← set (board g) r c "O";
          Ret (mkGame b' (turn g), FellBack r c)
      end
  end.

End PartC.

(** ** Vocabulary of the specification *)

(** A board of three rows of three cells. *)
Definition is3x3 (b : Board) : bool :=
  (length b =? 3)%nat && forallb (fun row => (length row =? 3)%nat) b.

(** A cell holding one of the three values the game uses. *)
Definition valid_cell (x : Cell) : bool :=
  (x =? " ") || (x =? "X") || (x =? "O").

(** A 3x3 board whose cells are in {X, O, empty}. *)
Definition board_ok (b : Board) : bool :=
  is3x3 b && forallb (forallb valid_cell) b.

(** [cellAt]: the content of a cell, read as empty outside the grid. *)
Definition cell (b : Board) (q : nat * nat) : Cell :=
  default " " (b !! q.1 ≫= (.!! q.2)).

(** The board with one cell replaced, all other cells as they were. *)
Definition place (b : Board) (q : nat * nat) (v : Cell) : Board :=
  alter (fun row => <[q.2 := v]> row) q.1 b.

(** [legalMoves]: the empty cells, in row-major order. *)
Definition legal_moves (b : Board) : list (nat * nat) :=
  List.filter (fun q => cell b q =? " ") cells.

(** The number of empty cells. *)
Definition count_empty (b : Board) : nat := length (legal_moves b).

(** [isFull]: no cell is empty. *)
Definition isFull (b : Board) : bool :=
  forallb (fun q => negb (cell b q =? " ")) cells.

(** The eight lines: three rows, three columns, two diagonals. *)
Definition win_lines : list (list (nat * nat)) :=
  (((fun r : nat => [(r, 0); (r, 1); (r, 2)]) <$> range3)
   ++ ((fun c : nat => [(0, c); (1, c); (2, c)]) <$> range3)
   ++ [[(0, 0); (1, 1); (2, 2)]; [(0, 2); (1, 1); (2, 0)]])%nat%list.

(** [hasWin]: all three cells of some line hold the mark [p]. *)
Definition hasWin (b : Board) (p : Cell) : bool :=
  existsb (forallb (fun q => cell b q =? p)) win_lines.

(** The mark that completes a line, if the line is completed. *)
Definition line_owner (b : Board) (l : list (nat * nat)) : option Cell :=
  match l with
  | [] => None
  | q :: _ =>
      if negb (cell b q =? " ") && forallb (fun q' => cell b q' =? cell b q) l
      then Some (cell b q) else None
  end.

(** The owner of the first completed line, in the order of [win_lines]. *)
Definition first_winner (b : Board) : option Cell :=
  head (omap (line_owner b) win_lines).

(** The mark of the side to move: O maximizes, X minimizes. *)
Definition mover (is_maximizing : bool) : Cell :=
  if is_maximizing then "O" else "X".

(** The maximum, or the minimum, of a list of scores. *)
Definition best (is_maximizing : bool) (vs : list Z) : Z :=
  match vs with
  | [] => 0
  | v :: vs' => fold_left (if is_maximizing then Z.max else Z.min) vs' v
  end.

(** The value of a position by exhaustive search, given the scoring
    [term] of decided positions: the best, for the side to move, of the
    values of the positions one move away.  [depth] bounds the search;
    an undecided position at depth 0 scores 0. *)
Fixpoint value_with (term : Board -> option Z) (depth : nat) (b : Board)
    (is_maximizing : bool) : Z :=
  match term b with
  | Some v => v
  | None =>
      match depth with
      | O => 0
      | S d =>
          best is_maximizing
            ((fun q => value_with term d (place b q (mover is_maximizing))
                         (negb is_maximizing)) <$> legal_moves b)
      end
  end.

(** Scoring of decided positions by the first completed line: +1 if it
    is O's, -1 if it is X's; 0 on a full board without one. *)
Definition terminal_score (b : Board) : option Z :=
  let w := first_winner b in
  if winner_is w "O" then Some 1
  else if winner_is w "X" then Some (-1)
  else if isFull b then Some 0
  else None.

(** The reference game value, searched to the depth of the empty cells. *)
Definition game_value (b : Board) (is_maximizing : bool) : Z :=
  value_with terminal_score (count_empty b) b is_maximizing.

(** Scoring of decided positions that asks for any completed line of O
    before any completed line of X. *)
Definition stated_terminal_score (b : Board) : option Z :=
  if hasWin b "O" then Some 1
  else if hasWin b "X" then Some (-1)
  else if isFull b then Some 0
  else None.

Definition stated_value (b : Board) (is_maximizing : bool) : Z :=
  value_with stated_terminal_score (count_empty b) b is_maximizing.

(** The score [computer_move] obtains for a cell: place O, search with X
    to move. *)
Definition simulated_score (fuel : nat) (b : Board) (q : nat * nat) : res Z :=
  b1 ← set b q.1 q.2 "O";
  '(score, _) ← PartB.minimax fuel b1 false;
  Ret score.

(** The first move, in the order given, whose score is the maximal one. *)
Definition first_best (sc : nat * nat -> Z) (moves : list (nat * nat))
    : option (nat * nat) :=
  List.find (fun q => (sc q =? best true (sc <$> moves))%Z) moves.

(** The feature of a cell: X is +1, O is -1, empty is 0. *)
Definition feature (x : Cell) : Z :=
  if x =? "X" then 1 else if x =? "O" then -1 else 0.

(** Modelled from the spec: the inverse mapping of the feature encoding
    (+1 to X, -1 to O, 0 to empty); the repository has no decoder. *)
Definition decode_value (v : Z) : option Cell :=
  if (v =? 1)%Z then Some "X"
  else if (v =? -1)%Z then Some "O"
  else if (v =? 0)%Z then Some " "
  else None.

(** Modelled from the spec: a length-9 row-major vector read back as a
    board. *)
Definition decode_features (fs : list Z) : option Board :=
  cs ← mapM decode_value fs;
  match cs with
  | [a0; a1; a2; b0; b1; b2; c0; c1; c2] =>
      Some [[a0; a1; a2]; [b0; b1; b2]; [c0; c1; c2]]
  | _ => None
  end.

(** Conjunction and disjunction over a list that stop at the first
    element deciding them. *)
Fixpoint all_lazy {A : Type} (f : A -> bool) (l : list A) : bool :=
  match l with
  | [] => true
  | x :: l' => if f x then all_lazy f l' else false
  end.

Fixpoint some_lazy {A : Type} (f : A -> bool) (l : list A) : bool :=
  match l with
  | [] => false
  | x :: l' => if f x then true else some_lazy f l'
  end.

(** [s] is at most [v] ([upper]), or at least [v]. *)
Definition within (upper : bool) (s v : Z) : bool :=
  if upper then (s <=? v)%Z else (v <=? s)%Z.

(** A search that establishes a bound on the game value without visiting
    the whole tree: for the bound to hold it is enough that it holds
    below every move when the side to move pushes against it, and below
    some move when the side to move pushes towards it. *)
Fixpoint bounded (upper : bool) (depth : nat) (b : Board) (m : bool) (v : Z)
    : bool :=
  match terminal_score b with
  | Some s => within upper s v
  | None =>
      match depth with
      | O => within upper 0 v
      | S d =>
          match legal_moves b with
          | [] => within upper 0 v
          | moves =>
              (if Bool.eqb m upper then all_lazy else some_lazy)
                (fun q => bounded upper d (place b q (mover m)) (negb m) v)
                moves
          end
      end
  end.

(** The loop body of [minimax] with the mark, the recursive call and the
    comparison as parameters. *)
Definition scan_body (rec : Board -> res (Z * Board)) (mark : Cell)
    (better : Z -> Z -> bool) (r c : nat) (s : Board * Z) : res (Board * Z) :=
  let '(board, best_score) := s in
  x ← get board r c;
  if x =? " " then
    board ← set board r c mark;
    '(score, board) ← rec board;
    board ← set board r c " ";
    Ret (board, if better score best_score then score else best_score)
  else Ret (board, best_score).

(** The running best of the loops, started at the sentinel. *)
Definition better_of (m : bool) : Z -> Z -> bool :=
  if m then Z.gtb else Z.ltb.

Definition sentinel (m : bool) : Z := if m then -999 else 999.

Definition keep_best (m : bool) (acc v : Z) : Z :=
  if better_of m v acc then v else acc.

(** The loop body of [computer_move] with the search as a parameter. *)
Definition choose_body (rec : Board -> res (Z * Board)) (r c : nat)
    (s : Board * Z * option (nat * nat)) : res (Board * Z * option (nat * nat)) :=
  let '(b, best_score, best_move) := s in
  x ← get b r c;
  if x =? " " then
    b ← set b r c "O";
    '(score, b) ← rec b;
    b ← set b r c " ";
    if (score >? best_score)%Z then Ret (b, score, Some (r, c))
    else Ret (b, best_score, best_move)
  else Ret (b, best_score, best_move).

(** One step of the running best of [computer_move], on scores [sc]. *)
Definition choose_step (sc : nat * nat -> Z) (s : Z * option (nat * nat))
    (q : nat * nat) : Z * option (nat * nat) :=
  if (sc q >? s.1)%Z then (sc q, Some q) else s.

(** A move is accepted when its coordinates are in 0..2 and its cell is
    empty. *)
Definition inside (row col : Z) : bool :=
  (0 <=? row)%Z && (row <=? 2)%Z && (0 <=? col)%Z && (col <=? 2)%Z.

Definition entry_ok (b : Board) (row col : Z) : bool :=
  inside row col && (cell b (Z.to_nat row, Z.to_nat col) =? " ").

(** The mark of the player who moves after [t]. *)
Definition other (t : Cell) : Cell := if t =? "X" then "O" else "X".

(** A line after which [human_move] looks at the next one: blank,
    malformed, or an entry that [validateEntry] rejects on the board. *)
Definition skipped (b : Board) (e : PartA.entry) : bool :=
  match e with
  | PartA.Blank | PartA.Malformed => true
  | PartA.Entry row col => negb (entry_ok b row col)
  | PartA.NotInt => false
  end.

Definition is_blank (e : PartA.entry) : bool :=
  match e with PartA.Blank => true | _ => false end.

Definition is_entry (e : PartA.entry) : bool :=
  match e with PartA.Entry _ _ => true | _ => false end.

(** The entries among the lines; each of them that is rejected costs
    [human_move] one nested call. *)
Definition count_entries (lines : list PartA.entry) : nat :=
  length (List.filter is_entry lines).

(** The number of cells holding the mark [p]. *)
Definition count_mark (b : Board) (p : Cell) : nat :=
  length (List.filter (fun q => cell b q =? p) cells).

(** The cell a class label from -9 to 8 addresses in [model_move]: row
    [idx // 3], counted from the end when negative, column [idx % 3]. *)
Definition class_cell (idx : Z) : nat * nat :=
  (Z.to_nat ((idx / 3) mod 3), Z.to_nat (idx mod 3)).

(** The first of the ranked labels whose cell is empty. *)
Definition first_open (b : Board) (ranked : list Z) : option Z :=
  List.find (fun idx => cell b (class_cell idx) =? " ") ranked.

(** The message [checkEnd] prints for a win of [t]. *)
Definition win_message (t : Cell) : list string :=
  [t +:+ " IS THE WINNER!!!"].

Definition draw_message : list string := ["DRAW! NOBODY WINS!"].

(** More boards used as examples: O has completed row 0 and X has no
    line; one move from the end. *)
Definition o_row : Board :=
  [["O"; "O"; "O"]; ["X"; "X"; " "]; [" "; " "; "X"]].

Definition last_cell : Board :=
  [["X"; "O"; "X"]; ["X"; "O"; "O"]; ["O"; "X"; " "]].

(** A game of PartA after X (0,0), O (1,0), X (0,1), O (1,1). *)
Definition after_four_moves : Game :=
  mkGame [["X"; "X"; " "]; ["O"; "O"; " "]; [" "; " "; " "]] "X".

(** A game of PartB after the human's X (1,1) and the computer's reply. *)
Definition after_one_round : Game :=
  mkGame [["O"; " "; " "]; [" "; "X"; " "]; [" "; " "; " "]] "X".

(** The end of a game of PartB that the computer wins. *)
Definition o_wins : Game :=
  mkGame [["O"; "X"; "X"]; ["X"; "X"; " "]; ["O"; "O"; "O"]] "O".

(** What [checkEnd] of PartA and PartB prints when it ends the game with
    [t] to move, if it ends it. *)
Definition ending (b : Board) (t : Cell) : option (list string) :=
  if hasWin b t then Some (win_message t)
  else if isFull b then Some draw_message
  else None.

(** The cell [computer_move] chooses: the first empty cell with the
    maximal value. *)
Definition reply (b : Board) : option (nat * nat) :=
  first_best (fun q => game_value (place b q "O") false) (legal_moves b).

(** A round of PartB on an accepted entry at cell [q]: the human's mark,
    the end of the game if [checkEnd] finds one for X, the computer's
    reply, the end of the game if [checkEnd] finds one for O. *)
Definition round (g : Game) (q : nat * nat)
    : Game * PartA.progress * list string :=
  let b1 := place (board g) q (turn g) in
  match ending b1 "X" with
  | Some msg => (mkGame b1 "X", PartA.Ended, msg)
  | None =>
      let b2 := match reply b1 with
                | Some q2 => place b1 q2 "O"
                | None => b1
                end in
      match ending b2 "O" with
      | Some msg => (mkGame b2 "O", PartA.Ended, msg)
      | None => (mkGame b2 "X", PartA.Continues, [])
      end
  end.

(** Boards used as examples. *)
Definition both_lines : Board :=
  [["X"; "X"; "X"]; ["O"; "O"; "O"]; [" "; " "; " "]].

(** O's completed line comes first in the scan of the lines, X has one
    too. *)
Definition o_first : Board :=
  [["O"; "O"; "O"]; ["X"; "X"; "X"]; [" "; " "; " "]].

Definition midgame : Board :=
  [["X"; "O"; "X"]; [" "; "O"; " "]; [" "; "X"; " "]].

(** Games used as examples: after X at (1,1); then, after an entry on
    the same cell, O at (0,0). *)
Definition after_one_move : Game :=
  mkGame [[" "; " "; " "]; [" "; "X"; " "]; [" "; " "; " "]] "O".

Definition after_two_moves : Game :=
  mkGame [["O"; " "; " "]; [" "; "X"; " "]; [" "; " "; " "]] "X".

(** ** The result monad *)

Lemma bind_Ret {A B : Type} (a : A) (k : A -> res B) : (Ret a ≫= k) = k a.
Proof. reflexivity. Qed.

Lemma bind_Ret_inv {A B : Type} (m : res A) (k : A -> res B) (y : B) :
  (m ≫= k) = Ret y -> exists a, m = Ret a /\ k a = Ret y.
Proof. destruct m as [a| |]; [eauto | discriminate | discriminate]. Qed.

(** ** Cells and boards *)

Lemma cells_eq :
  cells = [(0, 0); (0, 1); (0, 2); (1, 0); (1, 1); (1, 2);
           (2, 0); (2, 1); (2, 2)]%nat.
Proof. reflexivity. Qed.

Lemma is3x3_inv (b : Board) :
  is3x3 b = true ->
  exists a0 a1 a2 b0 b1 b2 c0 c1 c2,
    b = [[a0; a1; a2]; [b0; b1; b2]; [c0; c1; c2]].
Proof.
  unfold is3x3. intros H.
  destruct b as [|r0 [|r1 [|r2 [|? ?]]]]; try discriminate H.
  simpl in H.
  destruct r0 as [|? [|? [|? [|? ?]]]]; try discriminate H.
  destruct r1 as [|? [|? [|? [|? ?]]]]; try discriminate H.
  destruct r2 as [|? [|? [|? [|? ?]]]]; try discriminate H.
  eauto 10.
Qed.

(** Replaces a 3x3 board by its nine cells. *)
Ltac board_cells b H :=
  let a0 := fresh "a0" in let a1 := fresh "a1" in let a2 := fresh "a2" in
  let b0 := fresh "b0" in let b1 := fresh "b1" in let b2 := fresh "b2" in
  let c0 := fresh "c0" in let c1 := fresh "c1" in let c2 := fresh "c2" in
  destruct (is3x3_inv b H) as (a0 & a1 & a2 & b0 & b1 & b2 & c0 & c1 & c2 & ->).

(** Case analysis on a cell of the grid. *)
Ltac cell_cases H :=
  rewrite cells_eq in H;
  repeat (destruct H as [<- | H]); [.. | destruct H].

Lemma get_cell (b : Board) (r c : nat) :
  is3x3 b = true -> In (r, c) cells -> get b r c = Ret (cell b (r, c)).
Proof.
  intros Hb Hq. board_cells b Hb.
  rewrite cells_eq in Hq. simpl in Hq.
  repeat (destruct Hq as [[= <- <-] | Hq]; [reflexivity|]). destruct Hq.
Qed.

Lemma set_place (b : Board) (r c : nat) (v : Cell) :
  is3x3 b = true -> In (r, c) cells -> set b r c v = Ret (place b (r, c) v).
Proof.
  intros Hb Hq. board_cells b Hb.
  rewrite cells_eq in Hq. simpl in Hq.
  repeat (destruct Hq as [[= <- <-] | Hq]; [reflexivity|]). destruct Hq.
Qed.

Lemma place_is3x3 (b : Board) (q : nat * nat) (v : Cell) :
  is3x3 b = true -> is3x3 (place b q v) = true.
Proof.
  intros Hb. board_cells b Hb.
  destruct q as [[|[|[|r]]] [|[|[|c]]]]; reflexivity.
Qed.

Lemma cell_place_same (b : Board) (q : nat * nat) (v : Cell) :
  is3x3 b = true -> In q cells -> cell (place b q v) q = v.
Proof. intros Hb Hq. board_cells b Hb. cell_cases Hq; reflexivity. Qed.

Lemma cell_place_other (b : Board) (q q' : nat * nat) (v : Cell) :
  q' <> q -> cell (place b q v) q' = cell b q'.
Proof.
  intros Hne. unfold cell, place.
  destruct q as [r c], q' as [r' c']; simpl.
  destruct (decide (r' = r)) as [->|Hr].
  - assert (c' <> c) by congruence.
    rewrite list_lookup_alter_eq.
    destruct (b !! r) as [row|]; simpl; [|reflexivity].
    by rewrite list_lookup_insert_ne.
  - by rewrite list_lookup_alter_ne.
Qed.

Lemma place_restore (b : Board) (q : nat * nat) (v : Cell) :
  is3x3 b = true -> In q cells -> place (place b q v) q (cell b q) = b.
Proof. intros Hb Hq. board_cells b Hb. cell_cases Hq; reflexivity. Qed.

(** ** Empty cells *)

Ltac in_cells := rewrite cells_eq; simpl; tauto.

Lemma legal_moves_In (b : Board) (q : nat * nat) :
  In q (legal_moves b) <-> In q cells /\ cell b q = " ".
Proof. unfold legal_moves. rewrite filter_In, String.eqb_eq. tauto. Qed.

Lemma isFull_legal_moves (b : Board) :
  isFull b = true <-> legal_moves b = [].
Proof.
  unfold isFull, legal_moves. induction cells as [|q cs IH]; simpl.
  - tauto.
  - destruct (cell b q =? " "); simpl; [split; discriminate | exact IH].
Qed.

Lemma isFull_count_empty (b : Board) :
  isFull b = false -> exists d, count_empty b = S d.
Proof.
  intros H. unfold count_empty.
  destruct (legal_moves b) eqn:E; [|eauto].
  apply isFull_legal_moves in E. congruence.
Qed.

Lemma NoDup_cells : NoDup cells.
Proof. apply (bool_decide_unpack _). vm_compute. exact I. Qed.

Lemma filter_drop_one {A : Type} (f g : A -> bool) (l : list A) (x : A) :
  NoDup l -> In x l -> f x = true -> g x = false ->
  (forall y, y <> x -> g y = f y) ->
  length (List.filter f l) = S (length (List.filter g l)).
Proof.
  intros Hnd Hin Hf Hg Hfg. induction l as [|y l IH]; [destruct Hin|].
  apply NoDup_cons in Hnd as [Hy Hnd]. simpl.
  destruct Hin as [->|Hin].
  - rewrite Hf, Hg. simpl. f_equal. f_equal.
    apply List.filter_ext_in. intros z Hz. symmetry. apply Hfg.
    intros ->. apply Hy, list_elem_of_In, Hz.
  - assert (y <> x) as Hne.
    { intros ->. apply Hy, list_elem_of_In, Hin. }
    rewrite (Hfg y Hne). destruct (f y); simpl; rewrite IH; auto.
Qed.

Lemma count_empty_place (b : Board) (q : nat * nat) (v : Cell) :
  is3x3 b = true -> In q (legal_moves b) -> (v =? " ") = false ->
  count_empty b = S (count_empty (place b q v)).
Proof.
  intros Hb Hq Hv. apply legal_moves_In in Hq as [Hq Hc].
  unfold count_empty, legal_moves.
  apply (filter_drop_one _ _ _ q); auto using NoDup_cells.
  - by apply String.eqb_eq.
  - by rewrite cell_place_same.
  - intros y Hy. by rewrite cell_place_other.
Qed.

(** ** The rules against the vocabulary of the specification *)

Lemma line_owner_spec (b : Board) (p q s : nat * nat) :
  is3x3 b = true -> In p cells -> In q cells -> In s cells ->
  PartB.line b p q s = Ret (line_owner b [p; q; s]).
Proof.
  intros Hb Hp Hq Hs. unfold PartB.line, line_owner.
  destruct p as [pr pc], q as [qr qc], s as [sr sc].
  rewrite !get_cell by assumption. simpl.
  set (p := (pr, pc)). set (q := (qr, qc)). set (s := (sr, sc)).
  destruct (String.eqb_spec (cell b p) (cell b q)) as [E1|E1].
  - destruct (String.eqb_spec (cell b q) (cell b s)) as [E2|E2].
    + rewrite <- E2, <- E1, !String.eqb_refl. simpl.
      by destruct (cell b p =? " ").
    + replace (cell b s =? cell b p) with false.
      * by rewrite !andb_false_r.
      * symmetry. apply String.eqb_neq. congruence.
  - replace (cell b q =? cell b p) with false.
    + simpl. by rewrite !andb_false_r.
    + symmetry. apply String.eqb_neq. congruence.
Qed.

Lemma first_line_Ret (os : list (option Cell)) :
  PartB.first_line (Ret <$> os) = Ret (head (omap id os)).
Proof.
  induction os as [|[x|] os IH]; simpl; [reflexivity | reflexivity | exact IH].
Qed.

Lemma check_winner_static_spec (b : Board) :
  is3x3 b = true -> PartB.check_winner_static b = Ret (first_winner b).
Proof.
  intros Hb. unfold PartB.check_winner_static, range3.
  cbn [seq fmap list_fmap app].
  rewrite !line_owner_spec by (assumption || in_cells).
  change (PartB.first_line _)
    with (PartB.first_line (Ret <$> (line_owner b <$> win_lines))).
  rewrite first_line_Ret. reflexivity.
Qed.

Lemma all_filled_spec (b : Board) :
  is3x3 b = true -> PartB.all_filled b = isFull b.
Proof.
  intros Hb. board_cells b Hb. unfold PartB.all_filled, isFull, cell. simpl.
  repeat (match goal with |- context [?x =? " "] => destruct (x =? " ") end;
          simpl; try reflexivity).
Qed.

(** ** Scores *)

Lemma best_bounds (m : bool) (vs : list Z) (lo hi : Z) :
  (lo <= 0 <= hi)%Z -> (forall v, In v vs -> (lo <= v <= hi)%Z) ->
  (lo <= best m vs <= hi)%Z.
Proof.
  intros H0 Hvs. destruct vs as [|v vs]; simpl; [lia|].
  assert (lo <= v <= hi)%Z as Hv by (apply Hvs; simpl; auto).
  assert (forall w, In w vs -> (lo <= w <= hi)%Z) as Hrest
    by (intros w Hw; apply Hvs; simpl; auto).
  clear Hvs. revert v Hv. induction vs as [|w vs IH]; intros v Hv; simpl.
  - exact Hv.
  - apply IH.
    + intros u Hu. apply Hrest. simpl. auto.
    + assert (lo <= w <= hi)%Z by (apply Hrest; simpl; auto).
      destruct m; lia.
Qed.

Lemma terminal_score_bounds (b : Board) (v : Z) :
  terminal_score b = Some v -> (-1 <= v <= 1)%Z.
Proof.
  unfold terminal_score. intros H.
  repeat case_match; simplify_eq; lia.
Qed.

Lemma value_with_bounds (term : Board -> option Z) :
  (forall b v, term b = Some v -> (-1 <= v <= 1)%Z) ->
  forall d b m, (-1 <= value_with term d b m <= 1)%Z.
Proof.
  intros Hterm. induction d as [|d IH]; intros b m; simpl.
  - destruct (term b) as [v|] eqn:E; [eauto | lia].
  - destruct (term b) as [v|] eqn:E; [eauto|].
    apply best_bounds; [lia|].
    intros v Hv. apply in_map_iff in Hv as (q & <- & _). apply IH.
Qed.

Lemma game_value_bounds (b : Board) (m : bool) :
  (-1 <= game_value b m <= 1)%Z.
Proof. apply value_with_bounds, terminal_score_bounds. Qed.

Lemma keep_best_spec (m : bool) (acc v : Z) :
  keep_best m acc v = (if m then Z.max else Z.min) acc v.
Proof.
  unfold keep_best, better_of. destruct m.
  - destruct (Z.gtb_spec v acc); lia.
  - destruct (Z.ltb_spec v acc); lia.
Qed.

Lemma fold_keep_best (m : bool) (vs : list Z) :
  vs <> [] -> (forall v, In v vs -> (-1 <= v <= 1)%Z) ->
  fold_left (keep_best m) vs (sentinel m) = best m vs.
Proof.
  intros Hne Hvs. destruct vs as [|v vs]; [congruence|]. simpl.
  assert (-1 <= v <= 1)%Z as Hv by (apply Hvs; simpl; auto).
  replace (keep_best m (sentinel m) v) with v.
  - clear. revert v. induction vs as [|w vs IH]; intros v; simpl.
    + reflexivity.
    + by rewrite keep_best_spec, IH.
  - rewrite keep_best_spec. unfold sentinel. destruct m; lia.
Qed.

(** ** The search loops *)

Lemma minimax_unfold (fuel : nat) (b : Board) (m : bool) :
  PartB.minimax (S fuel) b m =
  (winner ← PartB.check_winner_static b;
   if winner_is winner "O" then Ret (1%Z, b)
   else if winner_is winner "X" then Ret ((-1)%Z, b)
   else if PartB.all_filled b then Ret (0%Z, b)
   else
     '(board, best_score) ←
       for_cells cells
         (scan_body (fun b' => PartB.minimax fuel b' (negb m)) (mover m)
            (better_of m))
         (b, sentinel m);
     Ret (best_score, board)).
Proof. destruct m; reflexivity. Qed.

Lemma scan_body_eq (rec : Board -> res (Z * Board)) (mark : Cell)
    (better : Z -> Z -> bool) (r c : nat) (b : Board) (acc : Z) :
  scan_body rec mark better r c (b, acc) =
  (x ← get b r c;
   if x =? " " then
     b1 ← set b r c mark;
     '(score, b2) ← rec b1;
     b3 ← set b2 r c " ";
     Ret (b3, if better score acc then score else acc)
   else Ret (b, acc)).
Proof. reflexivity. Qed.

Lemma scan_loop (rec : Board -> res (Z * Board)) (m : bool) (mark : Cell)
    (val : nat * nat -> Z) (b : Board) :
  is3x3 b = true ->
  (forall q, In q cells -> cell b q = " " ->
             rec (place b q mark) = Ret (val q, place b q mark)) ->
  forall cs, incl cs cells -> forall acc,
    for_cells cs (scan_body rec mark (better_of m)) (b, acc) =
    Ret (b, fold_left (keep_best m)
              (val <$> List.filter (fun q => cell b q =? " ") cs) acc).
Proof.
  intros Hb Hrec. induction cs as [|[r c] cs IH]; intros Hcs acc.
  - reflexivity.
  - assert (In (r, c) cells) as Hq by (apply Hcs; simpl; auto).
    assert (incl cs cells) as Hcs' by (intros x Hx; apply Hcs; simpl; auto).
    cbn [for_cells List.filter]. rewrite scan_body_eq.
    rewrite get_cell, bind_Ret by assumption.
    destruct (String.eqb_spec (cell b (r, c)) " ") as [E|E].
    + rewrite set_place, bind_Ret by assumption.
      rewrite Hrec, bind_Ret by assumption. cbn beta iota.
      rewrite set_place, bind_Ret by auto using place_is3x3.
      rewrite <- E at 1. rewrite place_restore by assumption.
      rewrite bind_Ret, IH by assumption. reflexivity.
    + rewrite bind_Ret, IH by assumption. reflexivity.
Qed.

Lemma value_with_step (term : Board -> option Z) (d : nat) (b : Board)
    (m : bool) :
  term b = None ->
  value_with term (S d) b m =
  best m ((fun q => value_with term d (place b q (mover m)) (negb m))
            <$> legal_moves b).
Proof. intros H. simpl. by rewrite H. Qed.

Lemma value_with_decided (term : Board -> option Z) (d : nat) (b : Board)
    (m : bool) (v : Z) :
  term b = Some v -> value_with term d b m = v.
Proof. intros H. destruct d; simpl; by rewrite H. Qed.

Lemma mover_not_empty (m : bool) : (mover m =? " ") = false.
Proof. by destruct m. Qed.

(** With fuel above the number of empty cells, [minimax] returns the
    reference game value and hands the board back as it received it. *)
Lemma minimax_game_value (fuel : nat) :
  forall (b : Board) (m : bool),
    is3x3 b = true -> (count_empty b < fuel)%nat ->
    PartB.minimax fuel b m = Ret (game_value b m, b).
Proof.
  induction fuel as [|fuel IH]; intros b m Hb Hfuel; [lia|].
  rewrite minimax_unfold, check_winner_static_spec, bind_Ret by assumption.
  rewrite all_filled_spec by assumption.
  unfold game_value.
  destruct (terminal_score b) as [v|] eqn:Hterm.
  - rewrite (value_with_decided _ _ _ _ _ Hterm).
    unfold terminal_score in Hterm.
    repeat case_match; simplify_eq; reflexivity.
  - assert (isFull b = false) as Hfull.
    { unfold terminal_score in Hterm. repeat case_match; simplify_eq; done. }
    destruct (isFull_count_empty b Hfull) as [d Hd].
    assert (forall q, In q (legal_moves b) ->
              count_empty (place b q (mover m)) = d) as Hcount.
    { intros q Hq.
      pose proof (count_empty_place b q (mover m) Hb Hq (mover_not_empty m)).
      lia. }
    rewrite Hd, (value_with_step _ _ _ _ Hterm).
    unfold terminal_score in Hterm.
    repeat case_match; simplify_eq.
    rewrite (scan_loop _ m (mover m)
               (fun q => value_with terminal_score d (place b q (mover m))
                           (negb m)) b Hb).
    + rewrite bind_Ret. cbn beta iota. f_equal. f_equal.
      apply fold_keep_best.
      * change (List.filter _ cells) with (legal_moves b).
        unfold count_empty in Hd. destruct (legal_moves b); [discriminate|].
        discriminate.
      * intros v Hv. apply in_map_iff in Hv as (q & <- & _).
        apply value_with_bounds, terminal_score_bounds.
    + intros q Hq Hc.
      assert (In q (legal_moves b)) as Hl by (by apply legal_moves_In).
      rewrite IH.
      * unfold game_value. by rewrite Hcount.
      * by apply place_is3x3.
      * rewrite Hcount by assumption. lia.
    + apply incl_refl.
Qed.

Lemma computer_move_unfold (fuel : nat) (b : Board) :
  PartB.computer_move fuel b =
  ('(b, best_score, best_move) ←
     for_cells cells (choose_body (fun b' => PartB.minimax fuel b' false))
       (b, (-999)%Z, None);
   match best_move with
   | Some (r, c) => b ← set b r c "O"; Ret (Some (r, c), b)
   | None => Ret (None, b)
   end).
Proof. reflexivity. Qed.

Lemma choose_body_eq (rec : Board -> res (Z * Board)) (r c : nat) (b : Board)
    (acc : Z) (mv : option (nat * nat)) :
  choose_body rec r c (b, acc, mv) =
  (x ← get b r c;
   if x =? " " then
     b1 ← set b r c "O";
     '(score, b2) ← rec b1;
     b3 ← set b2 r c " ";
     if (score >? acc)%Z then Ret (b3, score, Some (r, c))
     else Ret (b3, acc, mv)
   else Ret (b, acc, mv)).
Proof. reflexivity. Qed.

Lemma choose_loop (rec : Board -> res (Z * Board)) (sc : nat * nat -> Z)
    (b : Board) :
  is3x3 b = true ->
  (forall q, In q cells -> cell b q = " " ->
             rec (place b q "O") = Ret (sc q, place b q "O")) ->
  forall cs, incl cs cells -> forall acc mv,
    for_cells cs (choose_body rec) (b, acc, mv) =
    let s := fold_left (choose_step sc)
               (List.filter (fun q => cell b q =? " ") cs) (acc, mv) in
    Ret (b, s.1, s.2).
Proof.
  intros Hb Hrec. induction cs as [|[r c] cs IH]; intros Hcs acc mv.
  - reflexivity.
  - assert (In (r, c) cells) as Hq by (apply Hcs; simpl; auto).
    assert (incl cs cells) as Hcs' by (intros x Hx; apply Hcs; simpl; auto).
    cbn [for_cells List.filter]. rewrite choose_body_eq.
    rewrite get_cell, bind_Ret by assumption.
    destruct (String.eqb_spec (cell b (r, c)) " ") as [E|E].
    + rewrite set_place, bind_Ret by assumption.
      rewrite Hrec, bind_Ret by assumption. cbn beta iota.
      rewrite set_place, bind_Ret by auto using place_is3x3.
      assert (place (place b (r, c) "O") (r, c) " " = b) as ->.
      { rewrite <- E. by apply place_restore. }
      cbn zeta. cbn [fold_left]. unfold choose_step at 2 4. cbn [fst].
      destruct (sc (r, c) >? acc)%Z; rewrite bind_Ret, IH by assumption;
        reflexivity.
    + rewrite bind_Ret, IH by assumption. reflexivity.
Qed.

Lemma fold_max_ge (vs : list Z) (acc : Z) :
  (acc <= fold_left Z.max vs acc)%Z.
Proof.
  revert acc. induction vs as [|v vs IH]; intros acc; simpl; [lia|].
  specialize (IH (Z.max acc v)). lia.
Qed.

Lemma fold_choose (sc : nat * nat -> Z) (l : list (nat * nat)) :
  forall acc mv,
    fold_left (choose_step sc) l (acc, mv) =
    let top := fold_left Z.max (sc <$> l) acc in
    (top, if (acc =? top)%Z then mv
          else List.find (fun q => (sc q =? top)%Z) l).
Proof.
  induction l as [|q l IH]; intros acc mv; cbn [fold_left fmap list_fmap].
  - cbn. by rewrite Z.eqb_refl.
  - unfold choose_step at 2. cbn [fst].
    pose proof (fold_max_ge (sc <$> l) (Z.max acc (sc q))) as Hge.
    destruct (Z.gtb_spec (sc q) acc) as [Hgt|Hle].
    + rewrite IH. cbn zeta. replace (Z.max acc (sc q)) with (sc q) in * by lia.
      set (top := fold_left Z.max (sc <$> l) (sc q)) in *.
      f_equal. cbn [List.find].
      replace (acc =? top)%Z with false by (symmetry; apply Z.eqb_neq; lia).
      rewrite (Z.eqb_sym (sc q) top). reflexivity.
    + rewrite IH. cbn zeta. replace (Z.max acc (sc q)) with acc in * by lia.
      set (top := fold_left Z.max (sc <$> l) acc) in *.
      f_equal. cbn [List.find].
      destruct (Z.eqb_spec acc top) as [E|E]; [reflexivity|].
      replace (sc q =? top)%Z with false by (symmetry; apply Z.eqb_neq; lia).
      reflexivity.
Qed.

Lemma best_max_fold (vs : list Z) :
  vs <> [] -> (forall v, In v vs -> (-1 <= v <= 1)%Z) ->
  fold_left Z.max vs (-999)%Z = best true vs.
Proof.
  intros Hne Hvs. destruct vs as [|v vs]; [congruence|]. simpl.
  assert (-1 <= v <= 1)%Z by (apply Hvs; simpl; auto).
  by replace (Z.max (-999) v) with v by lia.
Qed.

Lemma best_attained (m : bool) (vs : list Z) :
  vs <> [] -> In (best m vs) vs.
Proof.
  intros Hne. destruct vs as [|v vs]; [congruence|]. clear Hne. simpl.
  revert v. induction vs as [|w vs IH]; intros v; simpl; [auto|].
  destruct (IH ((if m then Z.max else Z.min) v w)) as [E|Hin]; [|auto].
  rewrite <- E. destruct m; [destruct (Z.max_spec v w) | destruct (Z.min_spec v w)];
    intuition congruence.
Qed.

Lemma first_best_some (sc : nat * nat -> Z) (l : list (nat * nat)) :
  l <> [] -> exists q, first_best sc l = Some q /\ In q l.
Proof.
  intros Hne. unfold first_best.
  destruct (List.find _ l) as [q|] eqn:E.
  - exists q. split; [reflexivity|]. by apply find_some in E as [? _].
  - exfalso.
    assert (In (best true (sc <$> l)) (sc <$> l)) as Hin.
    { apply best_attained. by destruct l. }
    apply in_map_iff in Hin as (q & Hq & Hin).
    pose proof (find_none _ _ E q Hin) as Hf. cbn beta in Hf.
    apply Z.eqb_neq in Hf. congruence.
Qed.

(** The score of a first move for O, by the reference game value. *)
Lemma simulated_score_value (fuel : nat) (b : Board) (q : nat * nat) :
  is3x3 b = true -> (count_empty b <= fuel)%nat -> In q (legal_moves b) ->
  PartB.minimax fuel (place b q "O") false =
  Ret (game_value (place b q "O") false, place b q "O").
Proof.
  intros Hb Hfuel Hq. apply minimax_game_value.
  - by apply place_is3x3.
  - pose proof (count_empty_place b q "O" Hb Hq eq_refl). lia.
Qed.

Lemma computer_move_choice (fuel : nat) (b : Board) :
  is3x3 b = true -> (count_empty b <= fuel)%nat -> legal_moves b <> [] ->
  exists q,
    first_best (fun q => game_value (place b q "O") false) (legal_moves b)
      = Some q /\
    In q (legal_moves b) /\
    PartB.computer_move fuel b = Ret (Some q, place b q "O").
Proof.
  intros Hb Hfuel Hne.
  set (sc := fun q => game_value (place b q "O") false).
  destruct (first_best_some sc (legal_moves b) Hne) as (q & Hbest & Hq).
  exists q. split; [exact Hbest|]. split; [exact Hq|].
  rewrite computer_move_unfold.
  rewrite (choose_loop _ sc b Hb).
  - change (List.filter _ cells) with (legal_moves b).
    cbn zeta. rewrite fold_choose. cbn zeta. rewrite bind_Ret. cbn [fst snd].
    rewrite best_max_fold.
    + replace (-999 =? best true (sc <$> legal_moves b))%Z with false.
      * unfold first_best in Hbest. rewrite Hbest. destruct q as [r c].
        apply legal_moves_In in Hq as [Hq _].
        by rewrite set_place, bind_Ret.
      * symmetry. apply Z.eqb_neq.
        assert (-1 <= best true (sc <$> legal_moves b) <= 1)%Z; [|lia].
        apply best_bounds; [lia|]. intros v Hv.
        apply in_map_iff in Hv as (q' & <- & _). apply game_value_bounds.
    + by destruct (legal_moves b).
    + intros v Hv. apply in_map_iff in Hv as (q' & <- & _).
      apply game_value_bounds.
  - intros q' Hq' Hc. apply simulated_score_value; try assumption.
    by apply legal_moves_In.
  - apply incl_refl.
Qed.

Lemma computer_move_no_moves (fuel : nat) (b : Board) :
  is3x3 b = true -> legal_moves b = [] ->
  PartB.computer_move fuel b = Ret (None, b).
Proof.
  intros Hb Hnil. rewrite computer_move_unfold.
  rewrite (choose_loop _ (fun _ => 0%Z) b Hb).
  - change (List.filter _ cells) with (legal_moves b). by rewrite Hnil.
  - intros q Hq Hc.
    assert (In q (legal_moves b)) as Hin by (by apply legal_moves_In).
    rewrite Hnil in Hin. destruct Hin.
  - apply incl_refl.
Qed.

(** ** Restoring the board, on any board *)

Lemma set_restore (b b1 b2 : Board) (r c : nat) (v x : Cell) :
  get b r c = Ret x -> set b r c v = Ret b1 -> set b1 r c x = Ret b2 ->
  b2 = b.
Proof.
  unfold get, set, getitem, setitem. intros Hget Hset Hback.
  destruct (b !! r) as [row|] eqn:Hrow; [|discriminate Hget].
  rewrite bind_Ret in Hget. rewrite bind_Ret in Hset.
  destruct (row !! c) as [y|] eqn:Hy; [|discriminate Hget].
  injection Hget as ->.
  destruct (Nat.ltb_spec c (length row)) as [Hc|Hc]; [|discriminate Hset].
  rewrite bind_Ret in Hset.
  destruct (Nat.ltb_spec r (length b)) as [Hr|Hr]; [|discriminate Hset].
  injection Hset as <-.
  rewrite list_lookup_insert_eq, bind_Ret in Hback by assumption.
  rewrite !length_insert in Hback.
  destruct (Nat.ltb_spec c (length row)) as [_|Hc']; [|lia].
  rewrite bind_Ret in Hback.
  destruct (Nat.ltb_spec r (length b)) as [_|Hr']; [|lia].
  injection Hback as <-.
  rewrite list_insert_insert_eq, list_insert_insert_eq.
  rewrite (list_insert_id row) by assumption.
  by apply list_insert_id.
Qed.

Lemma scan_loop_board (rec : Board -> res (Z * Board)) (mark : Cell)
    (better : Z -> Z -> bool) :
  (forall b v b', rec b = Ret (v, b') -> b' = b) ->
  forall cs b acc b' acc',
    for_cells cs (scan_body rec mark better) (b, acc) = Ret (b', acc') ->
    b' = b.
Proof.
  intros Hrec. induction cs as [|[r c] cs IH]; intros b acc b' acc' H.
  - by injection H as -> ->.
  - cbn [for_cells] in H. rewrite scan_body_eq in H.
    apply bind_Ret_inv in H as ([b3 acc3] & Hbody & H).
    apply IH in H as ->.
    apply bind_Ret_inv in Hbody as (x & Hget & Hbody).
    destruct (String.eqb_spec x " ") as [->|Hx].
    + apply bind_Ret_inv in Hbody as (b1 & Hset & Hbody).
      apply bind_Ret_inv in Hbody as ([score b2] & Hcall & Hbody).
      apply bind_Ret_inv in Hbody as (b4 & Hback & Hbody).
      injection Hbody as -> _.
      apply Hrec in Hcall as ->.
      exact (set_restore _ _ _ _ _ _ _ Hget Hset Hback).
    + by injection Hbody as ->.
Qed.

Lemma minimax_board (fuel : nat) :
  forall (b : Board) (m : bool) (v : Z) (b' : Board),
    PartB.minimax fuel b m = Ret (v, b') -> b' = b.
Proof.
  induction fuel as [|fuel IH]; intros b m v b' H; [discriminate H|].
  rewrite minimax_unfold in H.
  apply bind_Ret_inv in H as (w & _ & H).
  repeat case_match; try (by injection H as _ ->).
  apply bind_Ret_inv in H as ([b1 acc] & Hloop & H).
  injection H as _ <-.
  eapply scan_loop_board; [|exact Hloop].
  intros b0 v0 b0' Hcall. by apply IH in Hcall.
Qed.

Lemma board_ok_is3x3 (b : Board) : board_ok b = true -> is3x3 b = true.
Proof. unfold board_ok. intros H. by apply andb_true_iff in H as [? _]. Qed.

Lemma best_max_ge (vs : list Z) (v : Z) :
  In v vs -> (v <= best true vs)%Z.
Proof.
  destruct vs as [|w vs]; [intros []|]. simpl. revert w.
  induction vs as [|u vs IH]; intros w Hin; simpl.
  - destruct Hin as [->|[]]. lia.
  - pose proof (fold_max_ge vs (Z.max w u)) as Hge.
    destruct Hin as [->|[->|Hin]]; [lia | lia |].
    apply IH. simpl. auto.
Qed.

Lemma find_first {A : Type} (f : A -> bool) (l : list A) (x : A) :
  List.find f l = Some x ->
  exists l1 l2, l = (l1 ++ x :: l2)%list /\ f x = true /\
                forall y, In y l1 -> f y = false.
Proof.
  induction l as [|y l IH]; [discriminate|]. simpl.
  destruct (f y) eqn:E.
  - intros [= ->]. exists [], l. simpl. tauto.
  - intros H. destruct (IH H) as (l1 & l2 & -> & Hx & Hl1).
    exists (y :: l1), l2. simpl. split; [reflexivity|]. split; [exact Hx|].
    intros z [<-|Hz]; auto.
Qed.

(** ** The search: frame, choice, termination, range *)

(** C2.  Whenever [minimax] returns, on any board, the board it hands
    back is the board it was given; on a 3x3 board with enough fuel it
    does return.  On a 3x3 board with at least one empty cell, the boards
    [playGame] calls it on, [computer_move] changes exactly one cell, the
    chosen one, from empty to O, and leaves the others as they were.
    (Without an empty cell there is no cell to choose, and the board is
    handed back as it was.) *)
Theorem search_restores_board (fuel : nat) (b : Board) :
  (forall m v b', PartB.minimax fuel b m = Ret (v, b') -> b' = b) /\
  (is3x3 b = true -> (count_empty b < fuel)%nat ->
   (forall m, exists v, PartB.minimax fuel b m = Ret (v, b)) /\
   (legal_moves b <> [] ->
    exists q b',
      PartB.computer_move fuel b = Ret (Some q, b') /\
      In q cells /\ cell b q = " " /\ cell b' q = "O" /\
      forall q', q' <> q -> cell b' q' = cell b q') /\
   (legal_moves b = [] -> PartB.computer_move fuel b = Ret (None, b))).
Proof.
  split; [intros m v b'; apply minimax_board|].
  intros Hb Hfuel. split; [|split].
  - intros m. exists (game_value b m). by apply minimax_game_value.
  - intros Hne.
    destruct (computer_move_choice fuel b Hb) as (q & _ & Hq & Hmove);
      [lia | assumption |].
    apply legal_moves_In in Hq as [Hq Hc].
    exists q, (place b q "O"). repeat split; try assumption.
    + by apply cell_place_same.
    + intros q' Hne'. by apply cell_place_other.
  - intros Hnil. by apply computer_move_no_moves.
Qed.

Lemma search_restores_board_witness :
  is3x3 midgame = true /\ (count_empty midgame < 5)%nat /\
  legal_moves midgame <> [] /\
  exists q b',
    PartB.computer_move 5 midgame = Ret (Some q, b') /\
    In q cells /\ cell midgame q = " " /\ cell b' q = "O" /\
    forall q', q' <> q -> cell b' q' = cell midgame q'.
Proof.
  assert (is3x3 midgame = true) as Hb by reflexivity.
  assert (count_empty midgame < 5)%nat as Hf by (vm_compute; lia).
  assert (legal_moves midgame <> []) as Hne by (vm_compute; discriminate).
  repeat split; try assumption.
  exact (proj1 (proj2 (proj2 (search_restores_board 5%nat midgame) Hb Hf)) Hne).
Defined.

Lemma simulated_score_spec (fuel : nat) (b : Board) (q : nat * nat) :
  is3x3 b = true -> (count_empty b <= fuel)%nat -> In q (legal_moves b) ->
  simulated_score fuel b q = Ret (game_value (place b q "O") false).
Proof.
  intros Hb Hfuel Hq. unfold simulated_score. destruct q as [r c].
  pose proof Hq as Hq'. apply legal_moves_In in Hq' as [Hin _].
  cbn [fst snd]. rewrite set_place, bind_Ret by assumption.
  by rewrite simulated_score_value.
Qed.

(** C3.  On a 3x3 board over {X, O, empty} with at least one empty cell,
    the cell [computer_move] chooses is the first empty cell, in
    row-major order, whose simulated score is the maximal one: every
    empty cell scanned before it scores strictly less, every empty cell
    scanned after it scores at most as much. *)
Theorem computer_move_first_best (fuel : nat) (b : Board) :
  board_ok b = true -> legal_moves b <> [] -> (count_empty b <= fuel)%nat ->
  exists (sc : nat * nat -> Z) (q : nat * nat),
    (forall q', In q' (legal_moves b) ->
                simulated_score fuel b q' = Ret (sc q')) /\
    PartB.computer_move fuel b = Ret (Some q, place b q "O") /\
    first_best sc (legal_moves b) = Some q /\
    sc q = best true (sc <$> legal_moves b) /\
    exists before after,
      legal_moves b = (before ++ q :: after)%list /\
      (forall q', In q' before -> (sc q' < sc q)%Z) /\
      (forall q', In q' after -> (sc q' <= sc q)%Z).
Proof.
  intros Hok Hne Hfuel. pose proof (board_ok_is3x3 b Hok) as Hb.
  set (sc := fun q => game_value (place b q "O") false).
  destruct (computer_move_choice fuel b Hb Hfuel Hne) as (q & Hbest & Hq & Hmove).
  exists sc, q. split; [|split; [exact Hmove|split; [exact Hbest|]]].
  - intros q' Hq'. by apply simulated_score_spec.
  - unfold first_best in Hbest.
    apply find_first in Hbest as (l1 & l2 & Hsplit & Htop & Hl1).
    apply Z.eqb_eq in Htop. split; [exact Htop|].
    exists l1, l2. split; [exact Hsplit|]. split.
    + intros q' Hq'.
      assert (sc q' <= best true (sc <$> legal_moves b))%Z.
      { apply best_max_ge, in_map. rewrite Hsplit. apply in_or_app. auto. }
      pose proof (Hl1 q' Hq') as Hneq. apply Z.eqb_neq in Hneq.
      subst sc. cbn beta in *. lia.
    + intros q' Hq'.
      assert (sc q' <= best true (sc <$> legal_moves b))%Z.
      { apply best_max_ge, in_map. rewrite Hsplit.
        apply in_or_app. right. simpl. auto. }
      subst sc. cbn beta in *. lia.
Qed.

Lemma computer_move_first_best_witness :
  board_ok midgame = true /\ legal_moves midgame <> [] /\
  (count_empty midgame <= 4)%nat /\
  exists q, PartB.computer_move 4 midgame = Ret (Some q, place midgame q "O").
Proof.
  assert (board_ok midgame = true) as Hok by reflexivity.
  assert (legal_moves midgame <> []) as Hne by (vm_compute; discriminate).
  assert (count_empty midgame <= 4)%nat as Hf by (vm_compute; lia).
  repeat split; try assumption.
  destruct (computer_move_first_best 4%nat midgame Hok Hne Hf)
    as (sc & q & _ & Hmove & _).
  exists q. exact Hmove.
Defined.

(** C9.  [minimax] terminates on every 3x3 board: any fuel above the
    number of empty cells yields a result, because every recursive call
    is made on the board with the mover's mark placed in an empty cell,
    which has strictly fewer empty cells. *)
Theorem minimax_terminates (b : Board) (m : bool) :
  is3x3 b = true ->
  (forall fuel, (count_empty b < fuel)%nat ->
     exists v, PartB.minimax fuel b m = Ret (v, b)) /\
  (forall r c, In (r, c) cells -> get b r c = Ret " " ->
     exists b1, set b r c (mover m) = Ret b1 /\ is3x3 b1 = true /\
                (count_empty b1 < count_empty b)%nat).
Proof.
  intros Hb. split.
  - intros fuel Hfuel. exists (game_value b m). by apply minimax_game_value.
  - intros r c Hq Hget. rewrite get_cell in Hget by assumption.
    injection Hget as Hc.
    exists (place b (r, c) (mover m)). split; [by apply set_place|].
    split; [by apply place_is3x3|].
    assert (In (r, c) (legal_moves b)) as Hl by (by apply legal_moves_In).
    pose proof (count_empty_place b (r, c) (mover m) Hb Hl (mover_not_empty m)).
    lia.
Qed.

Lemma minimax_terminates_witness :
  is3x3 midgame = true /\
  exists v, PartB.minimax 5 midgame true = Ret (v, midgame).
Proof.
  split; [reflexivity|].
  apply (proj1 (minimax_terminates midgame true eq_refl) 5%nat).
  vm_compute. lia.
Defined.

(** C10.  On a 3x3 board over {X, O, empty}, [minimax] returns -1, 0 or
    +1, never a sentinel; so when the board has an empty cell the move
    [computer_move] reports is never [None]. *)
Theorem minimax_score_range (fuel : nat) (b : Board) (m : bool) :
  board_ok b = true -> (count_empty b < fuel)%nat ->
  (exists v, PartB.minimax fuel b m = Ret (v, b) /\
             (v = -1 \/ v = 0 \/ v = 1)%Z) /\
  (legal_moves b <> [] ->
   exists q b', PartB.computer_move fuel b = Ret (Some q, b')).
Proof.
  intros Hok Hfuel. pose proof (board_ok_is3x3 b Hok) as Hb. split.
  - exists (game_value b m). split; [by apply minimax_game_value|].
    pose proof (game_value_bounds b m). lia.
  - intros Hne.
    destruct (computer_move_choice fuel b Hb) as (q & _ & _ & Hmove);
      [lia | assumption |].
    eauto.
Qed.

Lemma minimax_score_range_witness :
  board_ok midgame = true /\ (count_empty midgame < 5)%nat /\
  exists v, PartB.minimax 5 midgame false = Ret (v, midgame) /\
            (v = -1 \/ v = 0 \/ v = 1)%Z.
Proof.
  assert (board_ok midgame = true) as Hok by reflexivity.
  assert (count_empty midgame < 5)%nat as Hf by (vm_compute; lia).
  repeat split; try assumption.
  exact (proj1 (minimax_score_range 5%nat midgame false Hok Hf)).
Defined.

(** ** Bounds on the game value *)

Lemma fold_min_le (vs : list Z) (acc : Z) :
  (fold_left Z.min vs acc <= acc)%Z.
Proof.
  revert acc. induction vs as [|v vs IH]; intros acc; simpl; [lia|].
  specialize (IH (Z.min acc v)). lia.
Qed.

Lemma best_min_le (vs : list Z) (v : Z) :
  In v vs -> (best false vs <= v)%Z.
Proof.
  destruct vs as [|w vs]; [intros []|]. simpl. revert w.
  induction vs as [|u vs IH]; intros w Hin; simpl.
  - destruct Hin as [->|[]]. lia.
  - pose proof (fold_min_le vs (Z.min w u)) as Hle.
    destruct Hin as [->|[->|Hin]]; [lia | lia |].
    apply IH. simpl. auto.
Qed.

Lemma all_lazy_true {A : Type} (f : A -> bool) (l : list A) :
  all_lazy f l = true -> forall x, In x l -> f x = true.
Proof.
  induction l as [|y l IH]; simpl; [intros _ x []|].
  destruct (f y) eqn:E; [|discriminate].
  intros H x [<-|Hx]; auto.
Qed.

Lemma some_lazy_true {A : Type} (f : A -> bool) (l : list A) :
  some_lazy f l = true -> exists x, In x l /\ f x = true.
Proof.
  induction l as [|y l IH]; simpl; [discriminate|].
  destruct (f y) eqn:E.
  - intros _. exists y. auto.
  - intros H. destruct (IH H) as (x & Hx & Hf). exists x. auto.
Qed.

Lemma within_spec (upper : bool) (s v : Z) :
  within upper s v = true -> if upper then (s <= v)%Z else (v <= s)%Z.
Proof. unfold within. destruct upper; lia. Qed.

(** What [bounded] finds is a bound on the value of the position. *)
Lemma bounded_sound (upper : bool) (d : nat) :
  forall (b : Board) (m : bool) (v : Z),
    bounded upper d b m v = true ->
    if upper then (value_with terminal_score d b m <= v)%Z
    else (v <= value_with terminal_score d b m)%Z.
Proof.
  induction d as [|d IH]; intros b m v H; cbn [bounded value_with] in *;
    destruct (terminal_score b) as [s|]; try (by apply within_spec).
  destruct (legal_moves b) as [|q0 moves] eqn:Hmoves;
    [by apply within_spec|].
  set (child := fun q => value_with terminal_score d (place b q (mover m))
                           (negb m)).
  destruct (Bool.eqb m upper) eqn:Hside.
  - apply Bool.eqb_prop in Hside. subst upper.
    assert (In (best m (child <$> q0 :: moves)) (child <$> q0 :: moves))
      as Hin by (by apply best_attained).
    apply in_map_iff in Hin as (q & <- & Hq).
    exact (IH _ _ _ (all_lazy_true _ _ H q Hq)).
  - apply some_lazy_true in H as (q & Hq & H). apply IH in H.
    assert (In (child q) (child <$> q0 :: moves)) as Hin by (by apply in_map).
    destruct upper, m; try discriminate Hside.
    + pose proof (best_min_le _ _ Hin). unfold child in *. lia.
    + pose proof (best_max_ge _ _ Hin). unfold child in *. lia.
Qed.

(** Below each of the nine first moves for O, neither side can force
    more than a draw. *)
Lemma first_moves_bounded :
  all_lazy
    (fun q => bounded true 8 (place new_board q "O") false 0
              && bounded false 8 (place new_board q "O") false 0)
    cells = true.
Proof. vm_compute. reflexivity. Qed.

Lemma first_moves_value (q : nat * nat) :
  In q cells -> game_value (place new_board q "O") false = 0%Z.
Proof.
  intros Hq.
  pose proof (all_lazy_true _ _ first_moves_bounded q Hq) as H.
  cbn beta in H. apply andb_true_iff in H as [Hup Hlow].
  apply bounded_sound in Hup, Hlow.
  assert (count_empty (place new_board q "O") = 8%nat) as Hcount.
  { assert (In q (legal_moves new_board)) as Hl by exact Hq.
    pose proof (count_empty_place new_board q "O" eq_refl Hl eq_refl) as Hc.
    change (count_empty new_board) with 9%nat in Hc. lia. }
  unfold game_value. rewrite Hcount. lia.
Qed.

Lemma first_best_all_equal (sc : nat * nat -> Z) (v : Z) (q0 : nat * nat)
    (l : list (nat * nat)) :
  (forall q, In q (q0 :: l) -> sc q = v) ->
  first_best sc (q0 :: l) = Some q0.
Proof.
  intros H. unfold first_best. cbn [List.find].
  assert (best true (sc <$> q0 :: l) = v) as ->.
  { assert (In (best true (sc <$> q0 :: l)) (sc <$> q0 :: l)) as Hin
      by (by apply best_attained).
    apply in_map_iff in Hin as (q & <- & Hq). by apply H. }
  rewrite (H q0) by (simpl; auto). by rewrite Z.eqb_refl.
Qed.

(** C4.  On the empty board each of the nine first moves for O scores 0
    under exhaustive search, and [computer_move] chooses (0,0), the first
    cell in row-major order with that maximal score. *)
Theorem empty_board_choice (fuel : nat) :
  (9 <= fuel)%nat ->
  (forall q, In q cells -> simulated_score fuel new_board q = Ret 0%Z) /\
  first_best (fun _ => 0%Z) (legal_moves new_board) = Some (0, 0)%nat /\
  PartB.computer_move fuel new_board =
    Ret (Some (0, 0)%nat,
         [["O"; " "; " "]; [" "; " "; " "]; [" "; " "; " "]]).
Proof.
  intros Hfuel.
  assert (is3x3 new_board = true) as Hb by reflexivity.
  assert (count_empty new_board <= fuel)%nat as Hc by (vm_compute; lia).
  assert (legal_moves new_board = cells) as Hlegal by reflexivity.
  split; [|split; [reflexivity|]].
  - intros q Hq. rewrite simulated_score_spec by (rewrite ?Hlegal; assumption).
    by rewrite first_moves_value.
  - destruct (computer_move_choice fuel new_board Hb Hc) as (q & Hbest & _ & Hmove).
    { by rewrite Hlegal. }
    rewrite Hlegal, cells_eq in Hbest.
    rewrite (first_best_all_equal _ 0%Z) in Hbest.
    + injection Hbest as <-. exact Hmove.
    + intros q' Hq'. apply first_moves_value. by rewrite cells_eq.
Qed.

Lemma empty_board_choice_witness :
  (9 <= 9)%nat /\
  PartB.computer_move 9 new_board =
    Ret (Some (0, 0)%nat,
         [["O"; " "; " "]; [" "; " "; " "]; [" "; " "; " "]]).
Proof.
  split; [lia|]. apply (empty_board_choice 9). lia.
Defined.

(** ** Win and draw detection *)

Lemma line_is_spec (b : Board) (p q s : nat * nat) (t : Cell) :
  is3x3 b = true -> In p cells -> In q cells -> In s cells ->
  line_is b p q s t = Ret (forallb (fun q' => cell b q' =? t) [p; q; s]).
Proof.
  intros Hb Hp Hq Hs. unfold line_is.
  destruct p as [pr pc], q as [qr qc], s as [sr sc].
  rewrite !get_cell by assumption. simpl.
  set (x := cell b (pr, pc)). set (y := cell b (qr, qc)).
  set (z := cell b (sr, sc)).
  destruct (String.eqb_spec x y) as [<-|Hxy]; simpl.
  - destruct (String.eqb_spec x z) as [<-|Hxz]; simpl.
    + by destruct (x =? t).
    + destruct (String.eqb_spec x t) as [<-|Hxt]; simpl; [|reflexivity].
      f_equal. symmetry. rewrite andb_true_r. apply String.eqb_neq. congruence.
  - destruct (String.eqb_spec x t) as [<-|Hxt]; simpl; [|reflexivity].
    f_equal. symmetry.
    replace (y =? x) with false; [reflexivity|].
    symmetry. apply String.eqb_neq. congruence.
Qed.

Lemma any_check_Ret (bs : list bool) :
  any_check (Ret <$> bs) = Ret (existsb id bs).
Proof.
  induction bs as [|[|] bs IH]; simpl; [reflexivity | reflexivity | exact IH].
Qed.

Lemma checkWin_for_spec (b : Board) (t : Cell) :
  is3x3 b = true -> checkWin_for b t = Ret (hasWin b t).
Proof.
  intros Hb. unfold checkWin_for, range3.
  cbn [seq fmap list_fmap app].
  rewrite !line_is_spec by (assumption || in_cells).
  change (any_check _)
    with (any_check
            (Ret <$> (forallb (fun q => cell b q =? t) <$> win_lines))).
  rewrite any_check_Ret. reflexivity.
Qed.

Lemma checkFull_from_spec (b : Board) (cs : list (nat * nat)) :
  is3x3 b = true -> incl cs cells ->
  checkFull_from b cs = Ret (forallb (fun q => negb (cell b q =? " ")) cs).
Proof.
  intros Hb. induction cs as [|[r c] cs IH]; intros Hcs; [reflexivity|].
  cbn [checkFull_from forallb].
  rewrite get_cell, bind_Ret by (assumption || (apply Hcs; simpl; auto)).
  destruct (cell b (r, c) =? " "); simpl; [reflexivity|].
  apply IH. intros x Hx. apply Hcs. simpl. auto.
Qed.

Lemma checkFull_spec (g : Game) :
  is3x3 (board g) = true -> checkFull g = Ret (isFull (board g)).
Proof. intros Hb. by apply checkFull_from_spec, incl_refl. Qed.

(** ** Entering a move *)

Lemma inside_cells (row col : Z) :
  inside row col = true -> In (Z.to_nat row, Z.to_nat col) cells.
Proof.
  unfold inside. intros H.
  assert (row = 0 \/ row = 1 \/ row = 2)%Z as Hr by lia.
  assert (col = 0 \/ col = 1 \/ col = 2)%Z as Hc by lia.
  destruct Hr as [-> | [-> | ->]], Hc as [-> | [-> | ->]]; in_cells.
Qed.

Lemma validateEntry_spec (g : Game) (row col : Z) :
  is3x3 (board g) = true ->
  validateEntry g row col = Ret (entry_ok (board g) row col).
Proof.
  intros Hb. unfold validateEntry, entry_ok.
  fold (inside row col). destruct (inside row col) eqn:Hin; [|reflexivity].
  cbn [negb andb]. rewrite get_cell, bind_Ret by auto using inside_cells.
  by destruct (cell (board g) (Z.to_nat row, Z.to_nat col) =? " ").
Qed.

Lemma entry_ok_legal (b : Board) (row col : Z) :
  entry_ok b row col = true ->
  In (Z.to_nat row, Z.to_nat col) (legal_moves b).
Proof.
  unfold entry_ok. intros H. apply andb_true_iff in H as [Hin Hc].
  apply legal_moves_In. split; [by apply inside_cells|].
  by apply String.eqb_eq.
Qed.

Lemma playGame_step_accepted (g g' : Game) (e : PartA.entry) :
  PartA.playGame_step g e = Ret (g', PartA.Continues) ->
  exists row col c,
    e = PartA.Entry row col /\ validateEntry g row col = Ret true /\
    set (board g) (Z.to_nat row) (Z.to_nat col) (turn g) = Ret c /\
    g' = PartA.switchPlayer (mkGame c (turn g)).
Proof.
  destruct e as [| |row col|]; try discriminate. unfold PartA.playGame_step.
  intros H. apply bind_Ret_inv in H as (ok & Hok & H).
  destruct ok; [|discriminate]. cbn [negb] in H.
  apply bind_Ret_inv in H as (c & Hset & H).
  apply bind_Ret_inv in H as ([over msg] & Hend & H).
  destruct over; [discriminate|]. injection H as <-.
  exists row, col, c. auto.
Qed.

Lemma playGame_step_rejected (g g' : Game) (e : PartA.entry) :
  PartA.playGame_step g e = Ret (g', PartA.Rejected) -> g' = g.
Proof.
  destruct e as [| |row col|]; try (by intros [= ->]).
  unfold PartA.playGame_step.
  intros H. apply bind_Ret_inv in H as (ok & Hok & H).
  destruct ok; [|by injection H as ->]. cbn [negb] in H.
  apply bind_Ret_inv in H as (c & Hset & H).
  apply bind_Ret_inv in H as ([over msg] & Hend & H).
  destruct over; discriminate.
Qed.

Lemma switchPlayer_turn (g : Game) :
  turn (PartA.switchPlayer g) = other (turn g).
Proof. unfold PartA.switchPlayer, other. by destruct (turn g =? "X"). Qed.

Lemma switchPlayer_board (g : Game) :
  board (PartA.switchPlayer g) = board g.
Proof. unfold PartA.switchPlayer. by destruct (turn g =? "X"). Qed.

Lemma human_move_eof (d : nat) (g : Game) :
  PartC.human_move d [] g = Ret (false, g).
Proof. by destruct d. Qed.

Lemma human_move_entry (d : nat) (g : Game) (row col : Z)
    (rest : list PartA.entry) :
  PartC.human_move (S d) (PartA.Entry row col :: rest) g =
    ok ← validateEntry g row col;
    if negb (ok : bool) then PartC.human_move d rest g
    else
      c ← set (board g) (Z.to_nat row) (Z.to_nat col) "X";
      Ret (true, mkGame c (turn g)).
Proof. reflexivity. Qed.

(** C6.  A move is validated as its coordinates being in 0..2 and its
    cell being empty.  When validation fails the attempt changes nothing:
    [human_move] continues from the same game with the next line, in a
    call nested one deeper (and returns that very game if there is no
    line left), and the step of [playGame] hands the game back unchanged.
    When validation succeeds, the mark is placed in that cell and nothing
    else changes. *)
Theorem rejected_move_atomic (g : Game) (row col : Z) (d : nat)
    (rest : list PartA.entry) :
  is3x3 (board g) = true ->
  validateEntry g row col = Ret (entry_ok (board g) row col) /\
  (entry_ok (board g) row col = false ->
   PartC.human_move (S d) (PartA.Entry row col :: rest) g
     = PartC.human_move d rest g /\
   PartC.human_move (S d) [PartA.Entry row col] g = Ret (false, g) /\
   PartA.playGame_step g (PartA.Entry row col) = Ret (g, PartA.Rejected)) /\
  (entry_ok (board g) row col = true ->
   PartC.human_move (S d) (PartA.Entry row col :: rest) g =
     Ret (true, mkGame (place (board g) (Z.to_nat row, Z.to_nat col) "X")
                  (turn g)) /\
   exists p,
     PartA.playGame_step g (PartA.Entry row col) =
       Ret (let g1 := mkGame (place (board g) (Z.to_nat row, Z.to_nat col)
                                (turn g)) (turn g) in
            match p with
            | PartA.Continues => PartA.switchPlayer g1
            | _ => g1
            end, p) /\
     p <> PartA.Rejected).
Proof.
  intros Hb. pose proof (validateEntry_spec g row col Hb) as Hval.
  split; [exact Hval|]. split.
  - intros Hbad. rewrite Hbad in Hval.
    rewrite !human_move_entry. cbn [PartA.playGame_step].
    rewrite Hval, !bind_Ret. cbn [negb].
    split; [reflexivity|]. split; [apply human_move_eof | reflexivity].
  - intros Hgood. rewrite Hgood in Hval.
    pose proof (entry_ok_legal _ _ _ Hgood) as Hlegal.
    apply legal_moves_In in Hlegal as [Hq _].
    rewrite human_move_entry. cbn [PartA.playGame_step].
    rewrite Hval, !bind_Ret.
    cbn [negb]. rewrite !set_place, !bind_Ret by assumption.
    split; [reflexivity|].
    destruct (PartA.checkEnd _) as [[[|] msg]| |] eqn:Hend.
    + exists PartA.Ended. by rewrite bind_Ret.
    + exists PartA.Continues. by rewrite bind_Ret.
    + exfalso. revert Hend. unfold PartA.checkEnd, PartA.checkWin.
      rewrite checkWin_for_spec, bind_Ret by (by apply place_is3x3).
      rewrite checkFull_spec by (by apply place_is3x3).
      rewrite bind_Ret. by repeat case_match.
    + exfalso. revert Hend. unfold PartA.checkEnd, PartA.checkWin.
      rewrite checkWin_for_spec, bind_Ret by (by apply place_is3x3).
      rewrite checkFull_spec by (by apply place_is3x3).
      rewrite bind_Ret. by repeat case_match.
Qed.

Lemma rejected_move_atomic_witness :
  is3x3 midgame = true /\ entry_ok midgame 0 1 = false /\
  PartC.human_move 1 [PartA.Entry 0 1] (mkGame midgame "X")
    = Ret (false, mkGame midgame "X").
Proof.
  assert (is3x3 midgame = true) as Hb by reflexivity.
  split; [exact Hb|]. split; [reflexivity|].
  exact (proj1 (proj2 (proj1 (proj2
           (rejected_move_atomic (mkGame midgame "X") 0 1 0 [] Hb))
           eq_refl))).
Defined.

(** ** Turns *)

Lemma other_not_empty (t : Cell) : (other t =? " ") = false.
Proof. unfold other. by destruct (t =? "X"). Qed.

Lemma reached_shape (n : nat) (g : Game) :
  PartA.reached n g ->
  is3x3 (board g) = true /\ (count_empty (board g) + n = 9)%nat /\
  (turn g =? " ") = false.
Proof.
  induction 1 as [|n g e g' _ IH Hstep|n g e g' _ IH Hstep].
  - by vm_compute.
  - by apply playGame_step_rejected in Hstep as ->.
  - destruct IH as (Hb & Hcount & Hturn).
    apply playGame_step_accepted in Hstep
      as (row & col & c & -> & Hval & Hset & ->).
    rewrite validateEntry_spec in Hval by assumption.
    injection Hval as Hok. pose proof (entry_ok_legal _ _ _ Hok) as Hlegal.
    pose proof Hlegal as Hq. apply legal_moves_In in Hq as [Hq _].
    rewrite set_place in Hset by assumption. injection Hset as <-.
    rewrite switchPlayer_board, switchPlayer_turn. cbn [board turn].
    split; [by apply place_is3x3|]. split; [|apply other_not_empty].
    pose proof (count_empty_place _ _ _ Hb Hlegal Hturn). lia.
Qed.

Lemma playGame_from_reached (inputs : list PartA.entry) :
  forall n g g',
    PartA.reached n g -> PartA.playGame_from inputs g = Ret g' ->
    exists n' g0 e,
      (n <= n')%nat /\ PartA.reached n' g0 /\
      PartA.playGame_step g0 e = Ret (g', PartA.Ended).
Proof.
  induction inputs as [|e inputs IH]; intros n g g' Hreach Hrun;
    [discriminate|].
  cbn [PartA.playGame_from] in Hrun.
  apply bind_Ret_inv in Hrun as ([g1 p] & Hstep & Hrun).
  destruct p.
  - eapply IH; [|exact Hrun]. eapply PartA.reached_rejected; eauto.
  - destruct (IH (S n) g1 g') as (n' & g0 & e0 & Hle & Hn' & He0);
      [|exact Hrun|].
    + eapply PartA.reached_accepted; eauto.
    + exists n', g0, e0. split; [lia | auto].
  - injection Hrun as <-. exists n, g, e. auto.
Qed.

Lemma playGame_step_ended (g g' : Game) (e : PartA.entry) :
  PartA.playGame_step g e = Ret (g', PartA.Ended) -> turn g' = turn g.
Proof.
  destruct e as [| |row col|]; try discriminate. unfold PartA.playGame_step.
  intros H. apply bind_Ret_inv in H as (ok & Hok & H).
  destruct ok; [|discriminate]. cbn [negb] in H.
  apply bind_Ret_inv in H as (c & Hset & H).
  apply bind_Ret_inv in H as ([over msg] & Hend & H).
  destruct over; [|discriminate]. by injection H as <-.
Qed.

Lemma reached_turn (n : nat) (g : Game) :
  PartA.reached n g -> turn g = (if Nat.even n then "X" else "O").
Proof.
  induction 1 as [|n g e g' _ IH Hstep|n g e g' _ IH Hstep].
  - reflexivity.
  - by apply playGame_step_rejected in Hstep as ->.
  - apply playGame_step_accepted in Hstep as (row & col & c & _ & _ & _ & ->).
    rewrite switchPlayer_turn. cbn [turn]. rewrite IH, Nat.even_succ.
    rewrite <- Nat.negb_even. by destruct (Nat.even n).
Qed.

(** C7.  In a game of PartA that has seen [n] accepted moves, none of
    which ended it, X is to move if [n] is even and O if [n] is odd; the
    board then holds [n] marks.  Every accepted move that does not end
    the game hands the turn to the other player, and a rejected entry
    leaves the game as it was.  Whatever input [playGame] reads next, if
    it returns, the game was ended by an entry in such a game, with its
    own count of accepted moves and the turn that goes with it, and the
    turn is left with the player who made that last move. *)
Theorem turn_alternation (n : nat) (g : Game) :
  PartA.reached n g ->
  turn g = (if Nat.even n then "X" else "O") /\
  (count_empty (board g) + n = 9)%nat /\
  (forall e g', PartA.playGame_step g e = Ret (g', PartA.Continues) ->
                turn g' = other (turn g) /\ turn g' <> turn g) /\
  (forall e g', PartA.playGame_step g e = Ret (g', PartA.Rejected) ->
                g' = g) /\
  (forall inputs g',
     PartA.playGame_from inputs g = Ret g' ->
     exists n' g0 e,
       (n <= n')%nat /\ PartA.reached n' g0 /\
       turn g0 = (if Nat.even n' then "X" else "O") /\
       PartA.playGame_step g0 e = Ret (g', PartA.Ended) /\
       turn g' = turn g0).
Proof.
  intros Hreach. pose proof (reached_turn n g Hreach) as Hturn.
  split; [exact Hturn|]. split; [by apply reached_shape|]. split; [|split].
  - intros e g' Hstep.
    apply playGame_step_accepted in Hstep as (row & col & c & _ & _ & _ & ->).
    rewrite switchPlayer_turn. cbn [turn]. split; [reflexivity|].
    rewrite Hturn. by destruct (Nat.even n).
  - intros e g'. apply playGame_step_rejected.
  - intros inputs g' Hrun.
    destruct (playGame_from_reached inputs n g g' Hreach Hrun)
      as (n' & g0 & e & Hle & Hn' & Hstep).
    exists n', g0, e. split; [exact Hle|]. split; [exact Hn'|].
    split; [by apply reached_turn|]. split; [exact Hstep|].
    by apply playGame_step_ended in Hstep.
Qed.

Lemma reached_two_moves : PartA.reached 2 after_two_moves.
Proof.
  apply (PartA.reached_accepted 1 after_one_move (PartA.Entry 0 0));
    [|reflexivity].
  apply (PartA.reached_rejected 1 after_one_move (PartA.Entry 1 1));
    [|reflexivity].
  apply (PartA.reached_accepted 0 new_game (PartA.Entry 1 1)); [|reflexivity].
  apply PartA.reached_start.
Defined.

Lemma turn_alternation_witness :
  PartA.reached 2 after_two_moves /\
  turn after_two_moves = (if Nat.even 2 then "X" else "O").
Proof.
  split; [exact reached_two_moves|].
  exact (proj1 (turn_alternation 2 _ reached_two_moves)).
Defined.

(** ** Features *)

Lemma valid_cell_cases (x : Cell) :
  valid_cell x = true -> x = " " \/ x = "X" \/ x = "O".
Proof.
  unfold valid_cell. intros H.
  apply orb_true_iff in H as [H|H]; [apply orb_true_iff in H as [H|H]|];
    apply String.eqb_eq in H; auto.
Qed.

Lemma mapping_at_feature (x : Cell) :
  valid_cell x = true -> PartC.mapping_at x = Ret (feature x).
Proof.
  intros H. by destruct (valid_cell_cases x H) as [-> | [-> | ->]].
Qed.

Lemma decode_feature (x : Cell) :
  valid_cell x = true -> decode_value (feature x) = Some x.
Proof.
  intros H. by destruct (valid_cell_cases x H) as [-> | [-> | ->]].
Qed.

Lemma comprehension_Ret {A : Type} (f : nat -> nat -> res A)
    (h : nat * nat -> A) (cs : list (nat * nat)) :
  (forall r c, In (r, c) cs -> f r c = Ret (h (r, c))) ->
  PartC.comprehension f cs = Ret (h <$> cs).
Proof.
  induction cs as [|[r c] cs IH]; intros H; [reflexivity|].
  cbn [PartC.comprehension]. rewrite H, bind_Ret by (simpl; auto).
  rewrite IH, bind_Ret; [reflexivity|].
  intros r' c' Hin. apply H. simpl. auto.
Qed.

Lemma board_ok_cell (b : Board) (q : nat * nat) :
  board_ok b = true -> In q cells -> valid_cell (cell b q) = true.
Proof.
  intros Hok Hq. pose proof (board_ok_is3x3 _ Hok) as Hb.
  board_cells b Hb. unfold board_ok in Hok.
  cbn [is3x3 length Nat.eqb forallb andb] in Hok.
  rewrite !andb_true_r in Hok.
  repeat match goal with
         | H : _ && _ = true |- _ => apply andb_true_iff in H as [? ?]
         end.
  cell_cases Hq; assumption.
Qed.

(** C8.  On a 3x3 board over {X, O, empty}, [board_to_model_features]
    returns the nine features of the cells in row-major order (X is +1,
    O is -1, empty is 0), and decoding them by the inverse mapping gives
    the board back. *)
Theorem features_roundtrip (g : Game) :
  board_ok (board g) = true ->
  exists fs,
    PartC.board_to_model_features g = Ret fs /\
    fs = (fun q => feature (cell (board g) q)) <$> cells /\
    length fs = 9%nat /\
    decode_features fs = Some (board g).
Proof.
  intros Hok. pose proof (board_ok_is3x3 _ Hok) as Hb.
  exists ((fun q => feature (cell (board g) q)) <$> cells).
  split; [|split; [reflexivity|split; [reflexivity|]]].
  - unfold PartC.board_to_model_features.
    apply comprehension_Ret. intros r c Hq.
    rewrite get_cell, bind_Ret by assumption.
    by apply mapping_at_feature, board_ok_cell.
  - assert (forall q, In q cells ->
              decode_value (feature (cell (board g) q)) = Some (cell (board g) q))
      as Hdec by (intros q Hq; by apply decode_feature, board_ok_cell).
    unfold decode_features. rewrite cells_eq in *.
    cbn [fmap list_fmap mapM]. rewrite !Hdec by (simpl; tauto).
    destruct g as [b t]. cbn [board] in *. board_cells b Hb. reflexivity.
Qed.

Lemma features_roundtrip_witness :
  board_ok midgame = true /\
  exists fs,
    PartC.board_to_model_features (mkGame midgame "X") = Ret fs /\
    decode_features fs = Some midgame.
Proof.
  split; [reflexivity|].
  destruct (features_roundtrip (mkGame midgame "X") eq_refl)
    as (fs & Hfs & _ & _ & Hdec).
  exists fs. split; [exact Hfs | exact Hdec].
Defined.

(** ** Completed lines *)

Lemma head_omap_Some {A B : Type} (f : A -> option B) (l : list A) (y : B) :
  head (omap f l) = Some y -> exists x, In x l /\ f x = Some y.
Proof.
  induction l as [|x l IH]; [discriminate|]. cbn [omap list_omap].
  destruct (f x) as [z|] eqn:E.
  - intros [= ->]. exists x. simpl. auto.
  - intros H. destruct (IH H) as (x' & Hin & Hx'). exists x'. simpl. auto.
Qed.

Lemma head_omap_is_Some {A B : Type} (f : A -> option B) (l : list A)
    (x : A) (y : B) :
  In x l -> f x = Some y -> exists z, head (omap f l) = Some z.
Proof.
  induction l as [|x' l IH]; [intros []|]. cbn [omap list_omap].
  intros [->|Hin] Hx.
  - rewrite Hx. eauto.
  - destruct (f x'); [eauto | by apply IH].
Qed.

Lemma win_lines_cells (l : list (nat * nat)) :
  In l win_lines -> exists q l', l = q :: l' /\ In q cells.
Proof.
  unfold win_lines, range3. cbn [seq fmap list_fmap app In].
  intros H.
  repeat (destruct H as [<-|H]; [eexists _, _; split; [reflexivity|in_cells]|]).
  destruct H.
Qed.

Lemma first_winner_owner (b : Board) (p : Cell) :
  first_winner b = Some p ->
  hasWin b p = true /\ (p =? " ") = false /\
  exists q, In q cells /\ p = cell b q.
Proof.
  unfold first_winner. intros H.
  apply head_omap_Some in H as (l & Hl & Hown).
  destruct (win_lines_cells l Hl) as (q & l' & -> & Hq).
  unfold line_owner in Hown.
  destruct (negb (cell b q =? " ")) eqn:Hne; [|discriminate].
  destruct (forallb _ (q :: l')) eqn:Hall; [|discriminate].
  injection Hown as <-. split; [|split].
  - unfold hasWin. apply existsb_exists. eauto.
  - by apply negb_true_iff.
  - eauto.
Qed.

Lemma hasWin_some_winner (b : Board) (p : Cell) :
  hasWin b p = true -> (p =? " ") = false ->
  exists x, first_winner b = Some x.
Proof.
  unfold hasWin. intros H Hp. apply existsb_exists in H as (l & Hl & Hall).
  destruct (win_lines_cells l Hl) as (q & l' & -> & Hq).
  assert (cell b q = p) as Hc.
  { cbn [forallb] in Hall. apply andb_true_iff in Hall as [Hc _].
    by apply String.eqb_eq. }
  apply (head_omap_is_Some _ _ (q :: l') p Hl).
  unfold line_owner. by rewrite Hc, Hp, Hall.
Qed.

Lemma first_winner_mark (b : Board) (x : Cell) :
  board_ok b = true -> first_winner b = Some x -> x = "X" \/ x = "O".
Proof.
  intros Hok H. apply first_winner_owner in H as (_ & Hx & q & Hq & ->).
  destruct (valid_cell_cases _ (board_ok_cell b q Hok Hq)) as [E | [E | E]];
    rewrite E in *; auto; discriminate.
Qed.

Lemma terminal_score_agree (b : Board) :
  board_ok b = true -> hasWin b "X" && hasWin b "O" = false ->
  terminal_score b = stated_terminal_score b.
Proof.
  intros Hok Hboth. unfold terminal_score, stated_terminal_score.
  destruct (hasWin b "O") eqn:HO.
  - rewrite andb_true_r in Hboth.
    destruct (hasWin_some_winner b "O" HO eq_refl) as (x & Hx).
    destruct (first_winner_mark b x Hok Hx) as [-> | ->].
    + apply first_winner_owner in Hx as [Hx _]. congruence.
    + by rewrite Hx.
  - destruct (hasWin b "X") eqn:HX.
    + destruct (hasWin_some_winner b "X" HX eq_refl) as (x & Hx).
      destruct (first_winner_mark b x Hok Hx) as [-> | ->].
      * by rewrite Hx.
      * apply first_winner_owner in Hx as [Hx _]. congruence.
    + destruct (first_winner b) as [x|] eqn:Hx.
      * destruct (first_winner_mark b x Hok Hx) as [-> | ->];
          apply first_winner_owner in Hx as [Hx _]; congruence.
      * reflexivity.
Qed.

Lemma hasWin_place_other (b : Board) (q : nat * nat) (mark p : Cell) :
  is3x3 b = true -> In q cells -> (mark =? p) = false ->
  hasWin b p = false -> hasWin (place b q mark) p = false.
Proof.
  intros Hb Hq Hmark Hno.
  destruct (hasWin (place b q mark) p) eqn:Hwin; [|reflexivity].
  rewrite <- Hno. symmetry. unfold hasWin in *.
  apply existsb_exists in Hwin as (l & Hl & Hall).
  apply existsb_exists. exists l. split; [exact Hl|].
  apply forallb_forall. intros q' Hq'.
  pose proof (proj1 (forallb_forall _ _) Hall q' Hq') as Hc. cbn beta in Hc.
  destruct (decide (q' = q)) as [->|Hne].
  - rewrite cell_place_same in Hc by assumption. congruence.
  - by rewrite cell_place_other in Hc.
Qed.

Lemma board_ok_place (b : Board) (q : nat * nat) (v : Cell) :
  board_ok b = true -> In q cells -> valid_cell v = true ->
  board_ok (place b q v) = true.
Proof.
  intros Hok Hq Hv. pose proof (board_ok_is3x3 _ Hok) as Hb.
  board_cells b Hb. unfold board_ok in *.
  cbn [is3x3 length Nat.eqb forallb andb] in Hok.
  rewrite !andb_true_r in Hok.
  repeat match goal with
         | H : _ && _ = true |- _ => apply andb_true_iff in H as [? ?]
         end.
  cell_cases Hq; cbn [place alter list_alter fst snd insert list_insert
                      is3x3 length Nat.eqb forallb andb];
    repeat (apply andb_true_iff; split); auto.
Qed.

Lemma value_with_agree (d : nat) :
  forall (b : Board) (m : bool),
    board_ok b = true -> hasWin b "X" && hasWin b "O" = false ->
    value_with terminal_score d b m = value_with stated_terminal_score d b m.
Proof.
  induction d as [|d IH]; intros b m Hok Hboth; cbn [value_with];
    rewrite (terminal_score_agree b Hok Hboth); [reflexivity|].
  destruct (stated_terminal_score b) as [v|] eqn:Hterm; [reflexivity|].
  f_equal. apply Forall_fmap_ext, Forall_forall. intros q Hq.
  apply list_elem_of_In, legal_moves_In in Hq as [Hq _].
  pose proof (board_ok_is3x3 _ Hok) as Hb.
  unfold stated_terminal_score in Hterm.
  destruct (hasWin b "O") eqn:HO; [discriminate|].
  destruct (hasWin b "X") eqn:HX; [discriminate|].
  apply IH.
  - apply board_ok_place; try assumption. by destruct m.
  - destruct m; cbn [mover].
    + by rewrite (hasWin_place_other b q "O" "X").
    + rewrite (hasWin_place_other b q "X" "O") by auto.
      apply andb_false_r.
Qed.

Lemma game_value_unfold (b : Board) (m : bool) :
  is3x3 b = true ->
  game_value b m =
  match terminal_score b with
  | Some v => v
  | None =>
      best m ((fun q => game_value (place b q (mover m)) (negb m))
                <$> legal_moves b)
  end.
Proof.
  intros Hb. unfold game_value at 1.
  destruct (terminal_score b) as [v|] eqn:Hterm.
  - by apply value_with_decided.
  - assert (isFull b = false) as Hfull.
    { unfold terminal_score in Hterm. repeat case_match; simplify_eq; done. }
    destruct (isFull_count_empty b Hfull) as [d Hd].
    rewrite Hd, (value_with_step _ _ _ _ Hterm). f_equal.
    apply Forall_fmap_ext, Forall_forall. intros q Hq.
    apply list_elem_of_In in Hq. unfold game_value.
    pose proof (count_empty_place b q (mover m) Hb Hq (mover_not_empty m)).
    by replace (count_empty (place b q (mover m))) with d by lia.
Qed.

(** C5 (amended).  [checkEnd] (PartC) tests X's lines, then O's lines,
    then fullness: a board on which both X and O have a completed line
    ends the game as a win for X, and a full board without a completed
    line ends it as a draw.  [check_winner_static] (PartB) does not test
    by player: it returns the owner of the first completed line in its
    scan order (rows, then columns, then the diagonals).  On a board over
    {X, O, empty} on which X and O do not both have a completed line it
    names the winner that the order X, then O, names. *)
Theorem checkEnd_order (g : Game) :
  is3x3 (board g) = true ->
  PartC.checkEnd g =
    Ret (if hasWin (board g) "X" then (true, ["X IS THE WINNER!!!"])
         else if hasWin (board g) "O" then (true, ["O IS THE WINNER!!!"])
         else if isFull (board g) then (true, ["DRAW! NOBODY WINS!"])
         else (false, [])) /\
  (hasWin (board g) "X" = true -> hasWin (board g) "O" = true ->
   PartC.checkEnd g = Ret (true, ["X IS THE WINNER!!!"])) /\
  (isFull (board g) = true -> hasWin (board g) "X" = false ->
   hasWin (board g) "O" = false ->
   PartC.checkEnd g = Ret (true, ["DRAW! NOBODY WINS!"])) /\
  PartB.check_winner_static (board g) = Ret (first_winner (board g)) /\
  (board_ok (board g) = true ->
   hasWin (board g) "X" && hasWin (board g) "O" = false ->
   PartB.check_winner_static (board g) =
     Ret (if hasWin (board g) "X" then Some "X"
          else if hasWin (board g) "O" then Some "O"
          else None)).
Proof.
  intros Hb.
  assert (PartC.checkEnd g =
    Ret (if hasWin (board g) "X" then (true, ["X IS THE WINNER!!!"])
         else if hasWin (board g) "O" then (true, ["O IS THE WINNER!!!"])
         else if isFull (board g) then (true, ["DRAW! NOBODY WINS!"])
         else (false, []))) as Hend.
  { unfold PartC.checkEnd, PartC.checkWin_for_turn.
    rewrite !checkWin_for_spec, bind_Ret by assumption.
    destruct (hasWin (board g) "X"); [reflexivity|].
    rewrite bind_Ret.
    destruct (hasWin (board g) "O"); [reflexivity|].
    rewrite checkFull_spec, bind_Ret by assumption.
    by destruct (isFull (board g)). }
  pose proof (check_winner_static_spec (board g) Hb) as Hstatic.
  split; [exact Hend|]. split; [|split; [|split; [exact Hstatic|]]].
  - intros HX _. by rewrite Hend, HX.
  - intros Hfull HX HO. by rewrite Hend, HX, HO, Hfull.
  - intros Hok Hboth. rewrite Hstatic. f_equal.
    destruct (first_winner (board g)) as [x|] eqn:Hx.
    + pose proof (first_winner_owner _ _ Hx) as (Hwin & _).
      destruct (first_winner_mark _ x Hok Hx) as [-> | ->];
        rewrite Hwin in *; [reflexivity|].
      rewrite andb_true_r in Hboth. by rewrite Hboth.
    + assert (forall p, (p =? " ") = false -> hasWin (board g) p = false)
        as Hnone.
      { intros p Hp. apply not_true_is_false. intros Hwin.
        destruct (hasWin_some_winner _ p Hwin Hp) as (x & Hsome).
        congruence. }
      by rewrite !Hnone.
Qed.

Lemma checkEnd_order_witness :
  is3x3 both_lines = true /\
  hasWin both_lines "X" = true /\ hasWin both_lines "O" = true /\
  PartC.checkEnd (mkGame both_lines "X") = Ret (true, ["X IS THE WINNER!!!"]).
Proof.
  assert (is3x3 both_lines = true) as Hb by reflexivity.
  split; [exact Hb|]. split; [reflexivity|]. split; [reflexivity|].
  exact (proj1 (proj2 (checkEnd_order (mkGame both_lines "X") Hb))
           eq_refl eq_refl).
Defined.

(** C5, as stated, fails for [check_winner_static]: on a board where a
    completed line of O comes before a completed line of X in the scan,
    it names O, where [checkEnd] of PartC names X. *)
Lemma check_winner_static_order_counterexample :
  board_ok o_first = true /\
  hasWin o_first "X" = true /\ hasWin o_first "O" = true /\
  PartB.check_winner_static o_first = Ret (Some "O") /\
  PartC.checkEnd (mkGame o_first "X") = Ret (true, ["X IS THE WINNER!!!"]).
Proof. repeat split; reflexivity. Qed.

(** C1 (amended).  On a 3x3 board over {X, O, empty}, [minimax] with fuel
    above the number of empty cells returns the reference game value:
    the score of the first completed line in the order rows, columns,
    diagonals (+1 if it is O's, -1 if it is X's), 0 on a full board
    without one, and otherwise the maximum (O to move) or minimum (X to
    move), over the empty cells, of the value after the mover's mark is
    placed there and the other side moves.  Unless X and O both have a
    completed line, this is the value that scores +1 when O has a
    completed line and -1 when X has one. *)
Theorem minimax_reference_value (fuel : nat) (b : Board) (m : bool) :
  board_ok b = true -> (count_empty b < fuel)%nat ->
  PartB.minimax fuel b m = Ret (game_value b m, b) /\
  game_value b m =
    match terminal_score b with
    | Some v => v
    | None =>
        best m ((fun q => game_value (place b q (mover m)) (negb m))
                  <$> legal_moves b)
    end /\
  (hasWin b "X" && hasWin b "O" = false ->
   game_value b m = stated_value b m).
Proof.
  intros Hok Hfuel. pose proof (board_ok_is3x3 b Hok) as Hb.
  split; [|split].
  - by apply minimax_game_value.
  - by apply game_value_unfold.
  - intros Hboth. by apply value_with_agree.
Qed.

Lemma minimax_reference_value_witness :
  board_ok midgame = true /\ (count_empty midgame < 5)%nat /\
  PartB.minimax 5 midgame true = Ret (game_value midgame true, midgame).
Proof.
  assert (board_ok midgame = true) as Hok by reflexivity.
  assert (count_empty midgame < 5)%nat as Hf by (vm_compute; lia).
  split; [exact Hok|]. split; [exact Hf|].
  exact (proj1 (minimax_reference_value 5%nat midgame true Hok Hf)).
Defined.

(** C1, as stated, fails on a board where X and O both have a completed
    line: with X on row 0 and O on row 1, O has a completed line and yet
    [minimax] returns -1, the score of the first line found. *)
Lemma minimax_both_lines_counterexample :
  board_ok both_lines = true /\
  hasWin both_lines "O" = true /\
  stated_value both_lines true = 1%Z /\
  PartB.minimax 10 both_lines true = Ret ((-1)%Z, both_lines) /\
  PartB.minimax 10 both_lines true
    <> Ret (stated_value both_lines true, both_lines).
Proof.
  split; [reflexivity|]. split; [reflexivity|]. split; [reflexivity|].
  split; [reflexivity|]. discriminate.
Qed.

(** * Further properties of the code *)

(** ** The end of a game, by the player to move (PartA, PartB) *)

Lemma checkEnd_turn_spec (g : Game) :
  is3x3 (board g) = true ->
  PartA.checkEnd g =
    Ret (if hasWin (board g) (turn g) then (true, win_message (turn g))
         else if isFull (board g) then (true, draw_message)
         else (false, [])).
Proof.
  intros Hb. unfold PartA.checkEnd, PartA.checkWin.
  rewrite checkWin_for_spec, bind_Ret by assumption.
  destruct (hasWin (board g) (turn g)); [reflexivity|].
  rewrite checkFull_spec, bind_Ret by assumption.
  by destruct (isFull (board g)).
Qed.

(** X1.  [checkEnd] of PartA and PartB looks at the lines of the player
    whose turn it is, then at fullness, and names that player as the
    winner; a completed line of the other player does not end the game
    as long as the board has an empty cell. *)
Theorem checkEnd_current_player (g : Game) (p : Cell) :
  is3x3 (board g) = true ->
  PartA.checkEnd g =
    Ret (if hasWin (board g) (turn g) then (true, win_message (turn g))
         else if isFull (board g) then (true, draw_message)
         else (false, [])) /\
  PartB.checkEnd g = PartA.checkEnd g /\
  (hasWin (board g) p = true -> hasWin (board g) (turn g) = false ->
   isFull (board g) = false ->
   PartA.checkEnd g = Ret (false, []) /\ PartB.checkEnd g = Ret (false, [])).
Proof.
  intros Hb. pose proof (checkEnd_turn_spec g Hb) as Hend.
  split; [exact Hend|]. split; [reflexivity|].
  intros _ Hturn Hfull.
  change (PartB.checkEnd g) with (PartA.checkEnd g).
  rewrite Hend, Hturn, Hfull. auto.
Qed.

Lemma checkEnd_current_player_witness :
  is3x3 (board (mkGame o_row "X")) = true /\
  hasWin o_row "O" = true /\
  PartA.checkEnd (mkGame o_row "X") = Ret (false, []).
Proof.
  assert (is3x3 (board (mkGame o_row "X")) = true) as Hb by reflexivity.
  split; [exact Hb|]. split; [reflexivity|].
  exact (proj1 (proj2 (proj2
           (checkEnd_current_player (mkGame o_row "X") "O" Hb))
           eq_refl eq_refl eq_refl)).
Defined.

(** ** The winner found by the search *)

(** X2.  On a 3x3 board over {X, O, empty}, [check_winner_static] returns
    [None] exactly when neither player has a completed line, and a
    winner it returns is X or O and has a completed line. *)
Theorem check_winner_static_sound (b : Board) :
  board_ok b = true ->
  exists w,
    PartB.check_winner_static b = Ret w /\
    (w = None <-> hasWin b "X" = false /\ hasWin b "O" = false) /\
    (forall p, w = Some p -> (p = "X" \/ p = "O") /\ hasWin b p = true).
Proof.
  intros Hok. pose proof (board_ok_is3x3 b Hok) as Hb.
  exists (first_winner b). split; [by apply check_winner_static_spec|].
  split; [split|].
  - intros Hnone.
    split; apply not_true_is_false; intros Hwin;
      destruct (hasWin_some_winner b _ Hwin eq_refl) as (x & Hx); congruence.
  - intros [HX HO]. destruct (first_winner b) as [x|] eqn:Hx; [|reflexivity].
    destruct (first_winner_mark b x Hok Hx) as [-> | ->];
      apply first_winner_owner in Hx as [Hx _]; congruence.
  - intros p Hp. split; [by apply (first_winner_mark b)|].
    by apply first_winner_owner in Hp as [Hp _].
Qed.

Lemma check_winner_static_sound_witness :
  board_ok o_row = true /\
  exists w, PartB.check_winner_static o_row = Ret w /\
            forall p, w = Some p -> (p = "X" \/ p = "O") /\ hasWin o_row p = true.
Proof.
  split; [reflexivity|].
  destruct (check_winner_static_sound o_row eq_refl) as (w & Hw & _ & Hp).
  exists w. split; [exact Hw | exact Hp].
Defined.

(** ** Entries of the human player (PartC) *)

Lemma human_move_blank (d : nat) (g : Game) (rest : list PartA.entry) :
  PartC.human_move d (PartA.Blank :: rest) g = PartC.human_move d rest g.
Proof. by destruct d. Qed.

Lemma human_move_limit (g : Game) (e : PartA.entry)
    (rest : list PartA.entry) :
  is_blank e = false ->
  PartC.human_move 0 (e :: rest) g = Raise RecursionError.
Proof. by destruct e. Qed.

Lemma human_move_blanks (d : nat) (g : Game) (blanks : list PartA.entry) :
  forallb is_blank blanks = true ->
  PartC.human_move d blanks g = Ret (false, g).
Proof.
  induction blanks as [|e blanks IH]; [intros _; apply human_move_eof|].
  cbn [forallb]. intros H. apply andb_true_iff in H as [He H].
  destruct e; try discriminate. rewrite human_move_blank. by apply IH.
Qed.

Lemma human_move_skip (g : Game) (pre rest : list PartA.entry) :
  is3x3 (board g) = true ->
  forall d,
    forallb (skipped (board g)) pre = true -> (count_entries pre < d)%nat ->
    PartC.human_move d (pre ++ rest)%list g
      = PartC.human_move (d - count_entries pre) rest g.
Proof.
  intros Hb. unfold count_entries.
  induction pre as [|e pre IH]; intros d Hskip Hd;
    cbn [app forallb List.filter length] in *.
  - by rewrite Nat.sub_0_r.
  - apply andb_true_iff in Hskip as [He Hskip].
    destruct e as [| |row col|]; cbn [is_entry skipped length] in *;
      try discriminate.
    + rewrite human_move_blank. by apply IH.
    + destruct d as [|d]; [lia|].
      change (PartC.human_move (S d) (PartA.Malformed :: pre ++ rest)%list g)
        with (PartC.human_move (S d) (pre ++ rest)%list g).
      by apply IH.
    + destruct d as [|d]; [lia|].
      rewrite human_move_entry, validateEntry_spec, bind_Ret by assumption.
      rewrite He. cbn [Nat.sub]. apply IH; [assumption | lia].
Qed.

Lemma human_move_exhausted (g : Game) (pre rest : list PartA.entry)
    (e : PartA.entry) :
  is3x3 (board g) = true -> is_blank e = false ->
  forall d,
    forallb (skipped (board g)) pre = true -> count_entries pre = d ->
    PartC.human_move d (pre ++ e :: rest)%list g = Raise RecursionError.
Proof.
  intros Hb He. unfold count_entries.
  induction pre as [|x pre IH]; intros d Hskip Hd;
    cbn [app forallb List.filter length] in *.
  - subst d. by apply human_move_limit.
  - apply andb_true_iff in Hskip as [Hx Hskip].
    destruct x as [| |row col|]; cbn [is_entry skipped length] in *;
      try discriminate.
    + rewrite human_move_blank. by apply IH.
    + destruct d as [|d]; [by apply human_move_limit|].
      change (PartC.human_move (S d)
                (PartA.Malformed :: pre ++ e :: rest)%list g)
        with (PartC.human_move (S d) (pre ++ e :: rest)%list g).
      by apply IH.
    + destruct d as [|d]; [discriminate|].
      rewrite human_move_entry, validateEntry_spec, bind_Ret by assumption.
      rewrite Hx. apply IH; [assumption | lia].
Qed.

(** X3.  [human_move] goes past blank lines, malformed lines and entries
    that are out of range or on a taken cell, each rejected entry in a
    call nested one deeper.  While fewer than [d] entries have been
    rejected, it places X at the first valid entry and returns [True],
    returns [False] with the game unchanged when the input ends, also
    just after the [d]-th rejected entry, and is left by ValueError on a
    line [int] cannot convert.  Once [d] entries have been rejected, any
    further line that is not blank raises RecursionError. *)
Theorem human_move_first_valid (d : nat) (g : Game)
    (pre : list PartA.entry) :
  is3x3 (board g) = true ->
  forallb (skipped (board g)) pre = true ->
  ((count_entries pre < d)%nat ->
   (forall row col rest,
      entry_ok (board g) row col = true ->
      PartC.human_move d (pre ++ PartA.Entry row col :: rest)%list g =
        Ret (true, mkGame (place (board g) (Z.to_nat row, Z.to_nat col) "X")
                     (turn g))) /\
   PartC.human_move d pre g = Ret (false, g) /\
   (forall row col blanks,
      entry_ok (board g) row col = false ->
      forallb is_blank blanks = true ->
      PartC.human_move d (pre ++ PartA.Entry row col :: blanks)%list g
        = Ret (false, g)) /\
   (forall rest,
      PartC.human_move d (pre ++ PartA.NotInt :: rest)%list g
        = Raise ValueError)) /\
  (count_entries pre = d ->
   forall e rest,
     is_blank e = false ->
     PartC.human_move d (pre ++ e :: rest)%list g = Raise RecursionError).
Proof.
  intros Hb Hskip. split.
  - intros Hd.
    assert (exists k, (d - count_entries pre)%nat = S k) as [k Hk]
      by (exists (d - count_entries pre - 1)%nat; lia).
    split; [|split; [|split]].
    + intros row col rest Hok.
      rewrite human_move_skip, Hk by assumption.
      rewrite human_move_entry, validateEntry_spec, bind_Ret by assumption.
      rewrite Hok. cbn [negb].
      pose proof (entry_ok_legal _ _ _ Hok) as Hq.
      apply legal_moves_In in Hq as [Hq _].
      by rewrite set_place, bind_Ret.
    + rewrite <- (app_nil_r pre) at 1.
      rewrite human_move_skip by assumption. apply human_move_eof.
    + intros row col blanks Hbad Hblanks.
      rewrite human_move_skip, Hk by assumption.
      rewrite human_move_entry, validateEntry_spec, bind_Ret by assumption.
      rewrite Hbad. cbn [negb]. by apply human_move_blanks.
    + intros rest. by rewrite human_move_skip, Hk by assumption.
  - intros Hd e rest He. by apply human_move_exhausted.
Qed.

Lemma human_move_first_valid_witness :
  is3x3 (board (mkGame midgame "X")) = true /\
  PartC.human_move 3
    [PartA.Entry 0 0; PartA.Blank; PartA.Entry 7 1; PartA.Malformed;
     PartA.Entry 2 2; PartA.Entry 1 0]
    (mkGame midgame "X") =
    Ret (true, mkGame [["X"; "O"; "X"]; [" "; "O"; " "]; [" "; "X"; "X"]] "X")
  /\
  PartC.human_move 2
    [PartA.Entry 0 0; PartA.Blank; PartA.Entry 7 1; PartA.Malformed;
     PartA.Entry 2 2; PartA.Entry 1 0]
    (mkGame midgame "X") = Raise RecursionError.
Proof.
  split; [reflexivity|]. split.
  - exact (proj1 (proj1 (human_move_first_valid 3 (mkGame midgame "X")
                           [PartA.Entry 0 0; PartA.Blank; PartA.Entry 7 1;
                            PartA.Malformed]
                           eq_refl eq_refl) (le_n 3))
             2%Z 2%Z [PartA.Entry 1 0] eq_refl).
  - exact (proj2 (human_move_first_valid 2 (mkGame midgame "X")
                    [PartA.Entry 0 0; PartA.Blank; PartA.Entry 7 1]
                    eq_refl eq_refl) eq_refl
             PartA.Malformed [PartA.Entry 2 2; PartA.Entry 1 0] eq_refl).
Defined.

(** ** The list of available moves (PartC) *)

Lemma available_from_spec (b : Board) (cs : list (nat * nat)) :
  is3x3 b = true -> incl cs cells ->
  PartC.available_from b cs =
    Ret (List.filter (fun q => cell b q =? " ") cs).
Proof.
  intros Hb. induction cs as [|[r c] cs IH]; intros Hcs; [reflexivity|].
  cbn [PartC.available_from List.filter].
  rewrite get_cell, bind_Ret by (assumption || (apply Hcs; simpl; auto)).
  rewrite IH, bind_Ret; [reflexivity|].
  intros x Hx. apply Hcs. simpl. auto.
Qed.

Lemma count_three_ways (b : Board) :
  board_ok b = true ->
  (count_empty b + count_mark b "X" + count_mark b "O" = 9)%nat.
Proof.
  intros Hok.
  assert (forall cs, incl cs cells ->
    (length (List.filter (fun q => (cell b q =? " ")%string) cs)
     + length (List.filter (fun q => (cell b q =? "X")%string) cs)
     + length (List.filter (fun q => (cell b q =? "O")%string) cs)
     = length cs)%nat)
    as Hall.
  { induction cs as [|q cs IH]; intros Hcs; [reflexivity|].
    assert (In q cells) as Hq by (apply Hcs; simpl; auto).
    assert (incl cs cells) as Hcs' by (intros x Hx; apply Hcs; simpl; auto).
    specialize (IH Hcs'). cbn [List.filter].
    destruct (valid_cell_cases _ (board_ok_cell b q Hok Hq)) as [E | [E | E]];
      rewrite E; cbn [String.eqb Ascii.eqb Bool.eqb length]; cbn; lia. }
  exact (Hall cells (incl_refl _)).
Qed.

(** X4.  On a 3x3 board [get_available_moves] returns the empty cells in
    row-major order; the list is empty exactly when [checkFull] returns
    [True]; and on a board over {X, O, empty} its length is nine minus
    the number of marks. *)
Theorem get_available_moves_spec (g : Game) :
  is3x3 (board g) = true ->
  PartC.get_available_moves g = Ret (legal_moves (board g)) /\
  (checkFull g = Ret true <-> legal_moves (board g) = []) /\
  (forall q, In q (legal_moves (board g)) <->
             In q cells /\ cell (board g) q = " ") /\
  (board_ok (board g) = true ->
   (length (legal_moves (board g)) + count_mark (board g) "X"
    + count_mark (board g) "O" = 9)%nat).
Proof.
  intros Hb. split; [|split; [|split]].
  - by apply available_from_spec, incl_refl.
  - rewrite checkFull_spec by assumption. rewrite <- isFull_legal_moves.
    split; [by intros [= ->] | by intros ->].
  - intros q. apply legal_moves_In.
  - apply count_three_ways.
Qed.

Lemma get_available_moves_spec_witness :
  is3x3 (board (mkGame midgame "X")) = true /\
  PartC.get_available_moves (mkGame midgame "X")
    = Ret [(1, 0); (1, 2); (2, 0); (2, 2)]%nat.
Proof.
  split; [reflexivity|].
  exact (proj1 (get_available_moves_spec (mkGame midgame "X") eq_refl)).
Defined.

(** ** Counting marks *)

Lemma count_empty_le (b : Board) : (count_empty b <= 9)%nat.
Proof.
  unfold count_empty, legal_moves.
  pose proof (List.filter_length_le (fun q => cell b q =? " ") cells) as H.
  exact H.
Qed.

Lemma count_mark_place_same (b : Board) (q : nat * nat) (v : Cell) :
  is3x3 b = true -> In q (legal_moves b) -> (v =? " ") = false ->
  count_mark (place b q v) v = S (count_mark b v).
Proof.
  intros Hb Hq Hv. apply legal_moves_In in Hq as [Hq Hc].
  unfold count_mark.
  apply (filter_drop_one _ _ _ q); auto using NoDup_cells.
  - rewrite cell_place_same by assumption. apply String.eqb_refl.
  - rewrite Hc, String.eqb_sym. exact Hv.
  - intros y Hy. by rewrite cell_place_other.
Qed.

Lemma count_mark_place_other (b : Board) (q : nat * nat) (v p : Cell) :
  is3x3 b = true -> In q (legal_moves b) -> (v =? p) = false ->
  (p =? " ") = false ->
  count_mark (place b q v) p = count_mark b p.
Proof.
  intros Hb Hq Hv Hp. apply legal_moves_In in Hq as [Hq Hc].
  unfold count_mark. f_equal. apply List.filter_ext_in. intros y _.
  destruct (decide (y = q)) as [->|Hne].
  - rewrite cell_place_same, Hc, Hv by assumption.
    symmetry. rewrite String.eqb_sym. exact Hp.
  - by rewrite cell_place_other.
Qed.

(** ** A game of two players (PartA) *)

Lemma partA_step_spec (g : Game) (row col : Z) :
  is3x3 (board g) = true ->
  PartA.playGame_step g (PartA.Entry row col) =
    Ret (if entry_ok (board g) row col then
           let b1 := place (board g) (Z.to_nat row, Z.to_nat col) (turn g) in
           if hasWin b1 (turn g) || isFull b1
           then (mkGame b1 (turn g), PartA.Ended)
           else (PartA.switchPlayer (mkGame b1 (turn g)), PartA.Continues)
         else (g, PartA.Rejected)).
Proof.
  intros Hb. cbn [PartA.playGame_step].
  rewrite validateEntry_spec, bind_Ret by assumption.
  destruct (entry_ok (board g) row col) eqn:Hok; cbn [negb]; [|reflexivity].
  pose proof (entry_ok_legal _ _ _ Hok) as Hq.
  apply legal_moves_In in Hq as [Hq _].
  rewrite set_place, bind_Ret by assumption. cbn zeta.
  rewrite checkEnd_turn_spec by (by apply place_is3x3). cbn [board turn].
  rewrite bind_Ret.
  destruct (hasWin _ (turn g)); [reflexivity|].
  by destruct (isFull _).
Qed.

Lemma partA_step_continues (g g' : Game) (e : PartA.entry) :
  is3x3 (board g) = true ->
  PartA.playGame_step g e = Ret (g', PartA.Continues) ->
  exists q,
    In q (legal_moves (board g)) /\
    hasWin (place (board g) q (turn g)) (turn g) = false /\
    isFull (place (board g) q (turn g)) = false /\
    g' = PartA.switchPlayer (mkGame (place (board g) q (turn g)) (turn g)).
Proof.
  intros Hb. destruct e as [| |row col|]; try discriminate.
  rewrite partA_step_spec by assumption.
  destruct (entry_ok (board g) row col) eqn:Hok; [|discriminate].
  cbn zeta.
  destruct (hasWin _ (turn g)) eqn:Hwin; [discriminate|].
  destruct (isFull _) eqn:Hfull; [discriminate|].
  intros [= <-]. exists (Z.to_nat row, Z.to_nat col).
  auto using entry_ok_legal.
Qed.

Lemma partA_step_ended (g g' : Game) (e : PartA.entry) :
  is3x3 (board g) = true ->
  PartA.playGame_step g e = Ret (g', PartA.Ended) ->
  exists q,
    In q (legal_moves (board g)) /\
    g' = mkGame (place (board g) q (turn g)) (turn g) /\
    (hasWin (board g') (turn g) = true \/
     hasWin (board g') (turn g) = false /\ isFull (board g') = true).
Proof.
  intros Hb. destruct e as [| |row col|]; try discriminate.
  rewrite partA_step_spec by assumption.
  destruct (entry_ok (board g) row col) eqn:Hok; [|discriminate].
  cbn zeta.
  destruct (hasWin _ (turn g)) eqn:Hwin; cbn [orb].
  - intros [= <-]. exists (Z.to_nat row, Z.to_nat col).
    cbn [board]. auto using entry_ok_legal.
  - destruct (isFull _) eqn:Hfull; [|discriminate].
    intros [= <-]. exists (Z.to_nat row, Z.to_nat col).
    cbn [board]. auto using entry_ok_legal.
Qed.

Lemma turn_is_mark (n : nat) :
  let t := if Nat.even n then "X" else "O" in
  (t =? " ") = false /\ (t =? other t) = false /\ (other t =? " ") = false.
Proof. by destruct (Nat.even n). Qed.

Lemma reached_no_line (n : nat) (g : Game) :
  PartA.reached n g ->
  hasWin (board g) "X" = false /\ hasWin (board g) "O" = false /\
  isFull (board g) = false /\
  count_mark (board g) "O" = Nat.div2 n /\
  count_mark (board g) "X" = Nat.div2 (S n).
Proof.
  induction 1 as [|n g e g' Hreach IH Hstep|n g e g' Hreach IH Hstep].
  - by vm_compute.
  - by apply playGame_step_rejected in Hstep as ->.
  - destruct IH as (HX & HO & _ & HcO & HcX).
    destruct (reached_shape n g Hreach) as (Hb & _ & _).
    pose proof (reached_turn n g Hreach) as Hturn.
    apply partA_step_continues in Hstep as (q & Hq & Hwin & Hfull & ->);
      [|assumption].
    pose proof Hq as Hin. apply legal_moves_In in Hin as [Hin _].
    rewrite switchPlayer_board. cbn [board].
    rewrite Hturn in *.
    assert (Nat.div2 (S (S n)) = S (Nat.div2 n)) as Hdiv by reflexivity.
    destruct (Nat.even n) eqn:Heven.
    + assert (Nat.div2 (S n) = Nat.div2 n) as Hhalf.
      { apply Nat.even_spec in Heven as [k ->].
        by rewrite Nat.div2_succ_double, Nat.div2_double. }
      rewrite Hwin, Hfull, (hasWin_place_other _ q "X" "O") by auto.
      rewrite (count_mark_place_other _ q "X" "O") by auto.
      rewrite (count_mark_place_same _ q "X") by auto.
      repeat split; lia.
    + assert (Nat.div2 (S n) = S (Nat.div2 n)) as Hhalf.
      { assert (Nat.odd n = true) as Hodd
          by (by rewrite <- Nat.negb_even, Heven).
        apply Nat.odd_spec in Hodd as [k ->].
        replace (S (2 * k + 1)) with (2 * S k)%nat by lia.
        replace (2 * k + 1)%nat with (S (2 * k)) by lia.
        by rewrite Nat.div2_succ_double, Nat.div2_double. }
      rewrite Hwin, Hfull, (hasWin_place_other _ q "O" "X") by auto.
      rewrite (count_mark_place_other _ q "O" "X") by auto.
      rewrite (count_mark_place_same _ q "O") by auto.
      repeat split; lia.
Qed.

Lemma partA_reached_board_ok (n : nat) (g : Game) :
  PartA.reached n g -> board_ok (board g) = true.
Proof.
  induction 1 as [|n g e g' Hreach IH Hstep|n g e g' Hreach IH Hstep].
  - reflexivity.
  - by apply playGame_step_rejected in Hstep as ->.
  - pose proof (reached_turn n g Hreach) as Hturn.
    apply partA_step_continues in Hstep as (q & Hq & _ & _ & ->);
      [|by apply board_ok_is3x3].
    apply legal_moves_In in Hq as [Hq _].
    rewrite switchPlayer_board. cbn [board].
    apply board_ok_place; try assumption.
    rewrite Hturn. by destruct (Nat.even n).
Qed.

(** X5.  While PartA's [playGame] waits for an entry, after [n] accepted
    moves, the board is a 3x3 board over {X, O, empty} on which neither
    player has a completed line, it has an empty cell, and it holds the
    marks of alternating play: [n/2] O's and [(n+1)/2] X's. *)
Theorem partA_waiting_invariant (n : nat) (g : Game) :
  PartA.reached n g ->
  board_ok (board g) = true /\
  hasWin (board g) "X" = false /\ hasWin (board g) "O" = false /\
  isFull (board g) = false /\
  count_mark (board g) "O" = Nat.div2 n /\
  count_mark (board g) "X" = Nat.div2 (S n).
Proof.
  intros Hreach.
  destruct (reached_no_line n g Hreach) as (HX & HO & Hfull & HcO & HcX).
  split; [by apply (partA_reached_board_ok n)|].
  repeat split; assumption.
Qed.

Lemma reached_four_moves : PartA.reached 4 after_four_moves.
Proof.
  apply (PartA.reached_accepted 3
           (mkGame [["X"; "X"; " "]; ["O"; " "; " "]; [" "; " "; " "]] "O")
           (PartA.Entry 1 1)); [|reflexivity].
  apply (PartA.reached_accepted 2
           (mkGame [["X"; " "; " "]; ["O"; " "; " "]; [" "; " "; " "]] "X")
           (PartA.Entry 0 1)); [|reflexivity].
  apply (PartA.reached_accepted 1
           (mkGame [["X"; " "; " "]; [" "; " "; " "]; [" "; " "; " "]] "O")
           (PartA.Entry 1 0)); [|reflexivity].
  apply (PartA.reached_accepted 0 new_game (PartA.Entry 0 0)); [|reflexivity].
  apply PartA.reached_start.
Defined.

Lemma partA_waiting_invariant_witness :
  PartA.reached 4 after_four_moves /\
  count_mark (board after_four_moves) "O" = 2%nat /\
  count_mark (board after_four_moves) "X" = 2%nat.
Proof.
  split; [exact reached_four_moves|].
  exact (proj2 (proj2 (proj2 (proj2
           (partA_waiting_invariant 4 after_four_moves reached_four_moves))))).
Defined.

(** X6.  A game of PartA has at most nine accepted moves: a game still
    waiting has seen at most eight, and after eight no entry leaves the
    game waiting again.  When [playGame] returns, the entry that ended
    the game was therefore the ninth accepted one at most. *)
Theorem partA_game_length (n : nat) (g : Game) :
  PartA.reached n g ->
  (n <= 8)%nat /\
  (n = 8%nat -> forall e g', PartA.playGame_step g e
                             <> Ret (g', PartA.Continues)) /\
  (forall inputs g',
     PartA.playGame_from inputs g = Ret g' ->
     exists n' g0 e,
       (n <= n' <= 8)%nat /\ PartA.reached n' g0 /\
       PartA.playGame_step g0 e = Ret (g', PartA.Ended)).
Proof.
  intros Hreach.
  assert (forall k h, PartA.reached k h -> (k <= 8)%nat) as Hbound.
  { intros k h Hk. destruct (reached_shape k h Hk) as (_ & Hcount & _).
    destruct (reached_no_line k h Hk) as (_ & _ & Hfull & _).
    destruct (isFull_count_empty _ Hfull) as [d Hd]. lia. }
  split; [by apply (Hbound n g)|]. split.
  - intros -> e g' Hstep.
    assert (PartA.reached 9 g') as H9
      by (eapply PartA.reached_accepted; eauto).
    apply Hbound in H9. lia.
  - intros inputs g' Hrun.
    destruct (playGame_from_reached inputs n g g' Hreach Hrun)
      as (n' & g0 & e & Hle & Hn' & Hstep).
    exists n', g0, e. split; [|by split]. split; [exact Hle|].
    by apply (Hbound n' g0).
Qed.

Lemma partA_game_length_witness :
  PartA.reached 4 after_four_moves /\ (4 <= 8)%nat.
Proof.
  split; [exact reached_four_moves|].
  exact (proj1 (partA_game_length 4 after_four_moves reached_four_moves)).
Defined.

(** X7.  When an entry ends a game of PartA, the turn stays with the
    player who made the move, the other player has no completed line,
    and either the mover has completed a line with this very mark, or
    the board is full without one and this was the ninth mark. *)
Theorem partA_game_end (n : nat) (g g' : Game) (e : PartA.entry) :
  PartA.reached n g ->
  PartA.playGame_step g e = Ret (g', PartA.Ended) ->
  turn g' = turn g /\
  hasWin (board g) (turn g) = false /\
  hasWin (board g') (other (turn g)) = false /\
  (hasWin (board g') (turn g) = true \/
   hasWin (board g') (turn g) = false /\ isFull (board g') = true /\
   n = 8%nat).
Proof.
  intros Hreach Hstep.
  destruct (reached_shape n g Hreach) as (Hb & Hcount & _).
  destruct (reached_no_line n g Hreach) as (HX & HO & _).
  pose proof (reached_turn n g Hreach) as Hturn.
  pose proof (turn_is_mark n) as (Ht1 & Ht2 & Ht3). cbn zeta in *.
  rewrite <- Hturn in *.
  apply partA_step_ended in Hstep as (q & Hq & -> & Hend); [|assumption].
  cbn [board turn] in *.
  pose proof Hq as Hin. apply legal_moves_In in Hin as [Hin _].
  assert (hasWin (board g) (turn g) = false
          /\ hasWin (board g) (other (turn g)) = false) as [Hmine Htheirs].
  { rewrite Hturn. unfold other. by destruct (Nat.even n). }
  split; [reflexivity|]. split; [exact Hmine|]. split.
  - by apply hasWin_place_other.
  - destruct Hend as [Hwin | [Hwin Hfull]]; [by left|].
    right. split; [exact Hwin|]. split; [exact Hfull|].
    pose proof (count_empty_place _ q (turn g) Hb Hq Ht1) as Hc.
    apply isFull_legal_moves in Hfull.
    unfold count_empty in *. rewrite Hfull in Hc. cbn [length] in Hc. lia.
Qed.

Lemma partA_game_end_witness :
  PartA.reached 4 after_four_moves /\
  PartA.playGame_step after_four_moves (PartA.Entry 0 2)
    = Ret (mkGame [["X"; "X"; "X"]; ["O"; "O"; " "]; [" "; " "; " "]] "X",
           PartA.Ended) /\
  hasWin [["X"; "X"; "X"]; ["O"; "O"; " "]; [" "; " "; " "]] "O" = false.
Proof.
  split; [exact reached_four_moves|]. split; [reflexivity|].
  exact (proj1 (proj2 (proj2
           (partA_game_end 4 after_four_moves _ (PartA.Entry 0 2)
              reached_four_moves eq_refl)))).
Defined.

(** ** The computer's move (PartB) *)

Lemma computer_move_reply (fuel : nat) (b : Board) :
  is3x3 b = true -> (9 <= fuel)%nat ->
  PartB.computer_move fuel b =
    Ret (reply b, match reply b with
                  | Some q => place b q "O"
                  | None => b
                  end).
Proof.
  intros Hb Hfuel. pose proof (count_empty_le b) as Hle.
  destruct (legal_moves b) as [|q0 l] eqn:Hmoves.
  - rewrite computer_move_no_moves by assumption.
    unfold reply. by rewrite Hmoves.
  - destruct (computer_move_choice fuel b Hb) as (q & Hbest & _ & Hmove);
      [lia | by rewrite Hmoves |].
    unfold reply. by rewrite Hmove, Hbest.
Qed.

Lemma reply_optimal (b : Board) (q : nat * nat) :
  is3x3 b = true -> terminal_score b = None -> reply b = Some q ->
  In q (legal_moves b) /\
  game_value (place b q "O") false = game_value b true.
Proof.
  intros Hb Hterm Hreply. unfold reply, first_best in Hreply.
  apply find_some in Hreply as [Hq Htop]. apply Z.eqb_eq in Htop.
  split; [exact Hq|].
  rewrite (game_value_unfold b true Hb), Hterm. exact Htop.
Qed.

Lemma reply_some (b : Board) :
  isFull b = false -> exists q, reply b = Some q /\ In q (legal_moves b).
Proof.
  intros Hfull. apply first_best_some. intros Hnil.
  apply isFull_legal_moves in Hnil. congruence.
Qed.

Lemma undecided (b : Board) :
  board_ok b = true -> hasWin b "X" = false -> hasWin b "O" = false ->
  isFull b = false -> terminal_score b = None.
Proof.
  intros Hok HX HO Hfull. rewrite terminal_score_agree by (by rewrite ?HX).
  unfold stated_terminal_score. by rewrite HO, HX, Hfull.
Qed.

Lemma immediate_win_value (b : Board) (q : nat * nat) :
  board_ok b = true -> hasWin b "X" = false -> In q (legal_moves b) ->
  hasWin (place b q "O") "O" = true ->
  game_value (place b q "O") false = 1%Z.
Proof.
  intros Hok HX Hq Hwin. pose proof (board_ok_is3x3 b Hok) as Hb.
  pose proof Hq as Hin. apply legal_moves_In in Hin as [Hin _].
  rewrite game_value_unfold by (by apply place_is3x3).
  rewrite terminal_score_agree.
  - unfold stated_terminal_score. by rewrite Hwin.
  - by apply board_ok_place.
  - by rewrite (hasWin_place_other b q "O" "X").
Qed.

(** X8.  On an undecided 3x3 board over {X, O, empty} (no completed line,
    an empty cell) [computer_move] plays an optimal move: the score of
    the cell it takes is the value [minimax] gives the position with O
    to move, no other empty cell scores more, and if some empty cell
    completes a line for O the move it takes scores +1. *)
Theorem computer_move_optimal (fuel : nat) (b : Board) :
  board_ok b = true -> hasWin b "X" = false -> hasWin b "O" = false ->
  isFull b = false -> (9 <= fuel)%nat ->
  exists q s,
    PartB.computer_move fuel b = Ret (Some q, place b q "O") /\
    In q cells /\ cell b q = " " /\
    simulated_score fuel b q = Ret s /\
    PartB.minimax (S fuel) b true = Ret (s, b) /\
    (forall q', In q' (legal_moves b) ->
       exists s', simulated_score fuel b q' = Ret s' /\ (s' <= s)%Z) /\
    (forall q', In q' (legal_moves b) ->
       hasWin (place b q' "O") "O" = true -> s = 1%Z).
Proof.
  intros Hok HX HO Hfull Hfuel. pose proof (board_ok_is3x3 b Hok) as Hb.
  pose proof (count_empty_le b) as Hle.
  pose proof (undecided b Hok HX HO Hfull) as Hterm.
  destruct (reply_some b Hfull) as (q & Hreply & Hq).
  destruct (reply_optimal b q Hb Hterm Hreply) as [_ Hvalue].
  assert (forall q', In q' (legal_moves b) ->
            (game_value (place b q' "O") false <= game_value b true)%Z)
    as Hmax.
  { intros q' Hq'. rewrite (game_value_unfold b true Hb), Hterm.
    apply best_max_ge.
    exact (in_map (fun q => game_value (place b q "O") false) _ _ Hq'). }
  exists q, (game_value b true).
  pose proof Hq as Hin. apply legal_moves_In in Hin as [Hin Hc].
  split; [by rewrite computer_move_reply, Hreply by (assumption || lia)|].
  split; [exact Hin|]. split; [exact Hc|]. split; [|split; [|split]].
  - rewrite simulated_score_spec by (assumption || lia). by rewrite Hvalue.
  - apply minimax_game_value; [assumption | lia].
  - intros q' Hq'. exists (game_value (place b q' "O") false).
    split; [by rewrite simulated_score_spec by (assumption || lia)|].
    by apply Hmax.
  - intros q' Hq' Hwin.
    pose proof (Hmax q' Hq') as Hge.
    rewrite (immediate_win_value b q' Hok HX Hq' Hwin) in Hge.
    pose proof (game_value_bounds b true). lia.
Qed.

Lemma computer_move_optimal_witness :
  board_ok midgame = true /\ hasWin midgame "X" = false /\
  hasWin midgame "O" = false /\ isFull midgame = false /\
  exists q s, PartB.computer_move 9 midgame = Ret (Some q, place midgame q "O")
              /\ PartB.minimax 10 midgame true = Ret (s, midgame).
Proof.
  split; [reflexivity|]. split; [reflexivity|]. split; [reflexivity|].
  split; [reflexivity|].
  destruct (computer_move_optimal 9 midgame eq_refl eq_refl eq_refl eq_refl
              (le_n 9)) as (q & s & Hmove & _ & _ & _ & Hmax & _).
  exists q, s. split; [exact Hmove | exact Hmax].
Defined.

(** X9.  In PartB's [playGame] the computer always finds a cell: when
    [checkEnd] has just returned [False] on a 3x3 board, [computer_move]
    reports a move on an empty cell, never "Computer has no moves!". *)
Theorem computer_move_after_checkEnd (fuel : nat) (g : Game)
    (msg : list string) :
  is3x3 (board g) = true -> (9 <= fuel)%nat ->
  PartB.checkEnd g = Ret (false, msg) ->
  exists q,
    PartB.computer_move fuel (board g) = Ret (Some q, place (board g) q "O") /\
    In q cells /\ cell (board g) q = " ".
Proof.
  intros Hb Hfuel Hend.
  change (PartB.checkEnd g) with (PartA.checkEnd g) in Hend.
  rewrite checkEnd_turn_spec in Hend by assumption.
  destruct (hasWin (board g) (turn g)); [discriminate|].
  destruct (isFull (board g)) eqn:Hfull; [discriminate|].
  destruct (reply_some _ Hfull) as (q & Hreply & Hq).
  exists q. apply legal_moves_In in Hq as [Hq Hc].
  by rewrite computer_move_reply, Hreply.
Qed.

Lemma computer_move_after_checkEnd_witness :
  is3x3 (board (mkGame midgame "X")) = true /\
  PartB.checkEnd (mkGame midgame "X") = Ret (false, []) /\
  exists q, PartB.computer_move 9 midgame = Ret (Some q, place midgame q "O").
Proof.
  split; [reflexivity|]. split; [reflexivity|].
  destruct (computer_move_after_checkEnd 9 (mkGame midgame "X") [] eq_refl
              (le_n 9) eq_refl) as (q & Hmove & _).
  exists q. exact Hmove.
Defined.

(** ** A game against the computer (PartB) *)

Lemma new_board_not_lost : bounded false 9 new_board false 0 = true.
Proof. vm_compute. reflexivity. Qed.

Lemma new_board_value : (0 <= game_value new_board false)%Z.
Proof.
  pose proof (bounded_sound false 9 new_board false 0 new_board_not_lost)
    as H.
  cbn match in H. unfold game_value.
  change (count_empty new_board) with 9%nat. exact H.
Qed.

Lemma partB_step_spec (fuel : nat) (g : Game) (row col : Z) :
  is3x3 (board g) = true -> (9 <= fuel)%nat ->
  PartB.playGame_step fuel g (PartA.Entry row col) =
    Ret (if entry_ok (board g) row col
         then round g (Z.to_nat row, Z.to_nat col)
         else (g, PartA.Rejected, [])).
Proof.
  intros Hb Hfuel. cbn [PartB.playGame_step].
  rewrite validateEntry_spec, bind_Ret by assumption.
  destruct (entry_ok (board g) row col) eqn:Hok; cbn [negb]; [|reflexivity].
  pose proof (entry_ok_legal _ _ _ Hok) as Hq.
  apply legal_moves_In in Hq as [Hq _].
  rewrite set_place, bind_Ret by assumption. cbn zeta.
  set (b1 := place (board g) (Z.to_nat row, Z.to_nat col) (turn g)).
  assert (is3x3 b1 = true) as Hb1 by (by apply place_is3x3).
  change (PartB.checkEnd (mkGame b1 "X"))
    with (PartA.checkEnd (mkGame b1 "X")).
  rewrite checkEnd_turn_spec, bind_Ret by exact Hb1.
  unfold round, ending. fold b1. cbn [board turn].
  destruct (hasWin b1 "X"); [reflexivity|].
  destruct (isFull b1); [reflexivity|].
  rewrite computer_move_reply, bind_Ret by assumption.
  set (b2 := match reply b1 with Some q2 => place b1 q2 "O" | None => b1 end).
  assert (is3x3 b2 = true) as Hb2.
  { subst b2. destruct (reply b1); [by apply place_is3x3 | exact Hb1]. }
  change (PartB.checkEnd (mkGame b2 "O"))
    with (PartA.checkEnd (mkGame b2 "O")).
  rewrite checkEnd_turn_spec, bind_Ret by exact Hb2. cbn [board turn].
  destruct (hasWin b2 "O"); [reflexivity|].
  by destruct (isFull b2).
Qed.

Lemma partB_step_rejected (fuel : nat) (g g' : Game) (e : PartA.entry)
    (msg : list string) :
  is3x3 (board g) = true -> (9 <= fuel)%nat ->
  PartB.playGame_step fuel g e = Ret (g', PartA.Rejected, msg) -> g' = g.
Proof.
  intros Hb Hfuel. destruct e as [| |row col|]; try (by intros [= <-]).
  rewrite partB_step_spec by assumption.
  destruct (entry_ok (board g) row col); [|by intros [= <-]].
  unfold round. destruct (ending _ "X"); [discriminate|].
  destruct (ending _ "O"); discriminate.
Qed.

(** A human move cannot lower the value below what X can force, and a
    position of value at least 0 holds no line of X alone. *)
Lemma human_move_value (b : Board) (q : nat * nat) :
  is3x3 b = true -> terminal_score b = None -> In q (legal_moves b) ->
  (game_value b false <= game_value (place b q "X") true)%Z.
Proof.
  intros Hb Hterm Hq. rewrite (game_value_unfold b false Hb), Hterm.
  apply best_min_le.
  exact (in_map (fun q => game_value (place b q "X") true) _ _ Hq).
Qed.

Lemma not_lost_no_line (b : Board) (m : bool) :
  board_ok b = true -> hasWin b "O" = false ->
  (0 <= game_value b m)%Z -> hasWin b "X" = false.
Proof.
  intros Hok HO Hval. destruct (hasWin b "X") eqn:HX; [|reflexivity].
  rewrite game_value_unfold in Hval by (by apply board_ok_is3x3).
  rewrite terminal_score_agree in Hval by (by rewrite ?HO, ?andb_false_r).
  unfold stated_terminal_score in Hval. rewrite HO, HX in Hval. lia.
Qed.

(** What a round does to a position the computer has not lost, with as
    many marks of X as of O. *)
Lemma round_not_lost (g : Game) (q : nat * nat) :
  turn g = "X" -> board_ok (board g) = true ->
  hasWin (board g) "X" = false -> hasWin (board g) "O" = false ->
  (0 <= game_value (board g) false)%Z ->
  count_mark (board g) "X" = count_mark (board g) "O" ->
  In q (legal_moves (board g)) ->
  exists g' p msg,
    round g q = (g', p, msg) /\
    board_ok (board g') = true /\ hasWin (board g') "X" = false /\
    count_mark (board g') "X" = S (count_mark (board g) "X") /\
    match p with
    | PartA.Ended =>
        msg = win_message "O" /\ turn g' = "O" /\
        hasWin (board g') "O" = true /\
        count_mark (board g') "O" = S (count_mark (board g) "O")
        \/ msg = draw_message /\ turn g' = "X" /\
           hasWin (board g') "O" = false /\ isFull (board g') = true /\
           count_mark (board g') "O" = count_mark (board g) "O"
    | PartA.Continues =>
        msg = [] /\ turn g' = "X" /\ hasWin (board g') "O" = false /\
        isFull (board g') = false /\
        (0 <= game_value (board g') false)%Z /\
        count_mark (board g') "O" = S (count_mark (board g) "O")
    | PartA.Rejected => False
    end.
Proof.
  intros Hturn Hok HX HO Hval Heq Hq.
  pose proof (board_ok_is3x3 _ Hok) as Hb.
  pose proof Hq as Hin. apply legal_moves_In in Hin as [Hin Hc].
  assert (isFull (board g) = false) as Hfull.
  { destruct (isFull (board g)) eqn:E; [|reflexivity].
    apply isFull_legal_moves in E. rewrite E in Hq. destruct Hq. }
  pose proof (undecided _ Hok HX HO Hfull) as Hterm.
  pose proof (human_move_value _ q Hb Hterm Hq) as Hstep.
  pose proof (count_mark_place_same _ q "X" Hb Hq eq_refl) as HcX1.
  pose proof (count_mark_place_other _ q "X" "O" Hb Hq eq_refl eq_refl)
    as HcO1.
  unfold round. rewrite Hturn.
  set (b1 := place (board g) q "X") in *.
  assert (board_ok b1 = true) as Hok1 by (by apply board_ok_place).
  pose proof (board_ok_is3x3 _ Hok1) as Hb1.
  assert (hasWin b1 "O" = false) as HO1
    by (by apply (hasWin_place_other _ q "X" "O")).
  assert (hasWin b1 "X" = false) as HX1
    by (apply (not_lost_no_line b1 true); [assumption | assumption | lia]).
  unfold ending at 1. rewrite HX1.
  destruct (isFull b1) eqn:Hfull1.
  { eexists _, _, _. split; [reflexivity|]. cbn [board turn].
    split; [exact Hok1|]. split; [exact HX1|]. split; [exact HcX1|].
    right. auto. }
  destruct (reply_some b1 Hfull1) as (q2 & Hreply & Hq2).
  rewrite Hreply.
  pose proof (undecided _ Hok1 HX1 HO1 Hfull1) as Hterm1.
  destruct (reply_optimal b1 q2 Hb1 Hterm1 Hreply) as [_ Hvalue].
  pose proof Hq2 as Hin2. apply legal_moves_In in Hin2 as [Hin2 Hc2].
  pose proof (count_mark_place_same _ q2 "O" Hb1 Hq2 eq_refl) as HcO2.
  pose proof (count_mark_place_other _ q2 "O" "X" Hb1 Hq2 eq_refl eq_refl)
    as HcX2.
  set (b2 := place b1 q2 "O") in *.
  assert (board_ok b2 = true) as Hok2 by (by apply board_ok_place).
  assert (hasWin b2 "X" = false) as HX2
    by (by apply (hasWin_place_other _ q2 "O" "X")).
  assert (isFull b2 = false) as Hfull2.
  { destruct (isFull b2) eqn:E; [|reflexivity].
    pose proof (count_three_ways b2 Hok2) as Hsum.
    apply isFull_legal_moves in E. unfold count_empty in Hsum.
    rewrite E in Hsum. cbn [length] in Hsum. lia. }
  unfold ending. rewrite Hfull2. destruct (hasWin b2 "O") eqn:HO2.
  - eexists _, _, _. split; [reflexivity|]. cbn [board turn].
    split; [exact Hok2|]. split; [exact HX2|]. split; [lia|].
    left. split; [reflexivity|]. split; [reflexivity|].
    split; [exact HO2 | lia].
  - eexists _, _, _. split; [reflexivity|]. cbn [board turn].
    split; [exact Hok2|]. split; [exact HX2|]. split; [lia|].
    split; [reflexivity|]. split; [reflexivity|]. split; [exact HO2|].
    split; [exact Hfull2|]. split; lia.
Qed.

Lemma partB_reached_safe (fuel : nat) (n : nat) (g : Game) :
  (9 <= fuel)%nat -> PartB.reached fuel n g ->
  turn g = "X" /\ board_ok (board g) = true /\
  hasWin (board g) "X" = false /\ hasWin (board g) "O" = false /\
  isFull (board g) = false /\
  (0 <= game_value (board g) false)%Z /\
  count_mark (board g) "X" = n /\ count_mark (board g) "O" = n.
Proof.
  intros Hfuel.
  induction 1 as [|n g e g' msg Hreach IH Hstep|n g e g' msg Hreach IH Hstep].
  - split; [reflexivity|]. split; [reflexivity|]. split; [reflexivity|].
    split; [reflexivity|]. split; [reflexivity|].
    split; [exact new_board_value|]. split; reflexivity.
  - pose proof IH as (_ & Hok & _).
    apply partB_step_rejected in Hstep as ->;
      [exact IH | by apply board_ok_is3x3 | exact Hfuel].
  - destruct IH as (Hturn & Hok & HX & HO & _ & Hval & HcX & HcO).
    destruct e as [| |row col|]; try discriminate.
    rewrite partB_step_spec in Hstep by (by try apply board_ok_is3x3).
    destruct (entry_ok (board g) row col) eqn:Hentry; [|discriminate].
    apply entry_ok_legal in Hentry.
    destruct (round_not_lost g _ Hturn Hok HX HO Hval ltac:(lia) Hentry)
      as (g1 & p & msg1 & Hround & Hok1 & HX1 & HcX1 & Hp).
    rewrite Hround in Hstep. injection Hstep as -> -> ->.
    destruct Hp as (_ & Ht & HO1 & Hfull1 & Hval1 & HcO1).
    repeat split; try assumption; lia.
Qed.

(** Every line that [int] can convert is answered: rejected with the
    game unchanged, a round that leaves the game waiting, or the end of
    the game. *)
Lemma partB_step_cases (fuel n : nat) (g : Game) (e : PartA.entry) :
  (9 <= fuel)%nat -> PartB.reached fuel n g -> e <> PartA.NotInt ->
  exists g' p msg,
    PartB.playGame_step fuel g e = Ret (g', p, msg) /\
    match p with
    | PartA.Rejected => g' = g
    | PartA.Continues => msg = []
    | PartA.Ended =>
        hasWin (board g') "X" = false /\
        (msg = win_message "O" /\ turn g' = "O" /\
         hasWin (board g') "O" = true /\
         count_mark (board g') "X" = S n /\ count_mark (board g') "O" = S n
         \/ msg = draw_message /\ turn g' = "X" /\
            hasWin (board g') "O" = false /\ isFull (board g') = true /\
            count_mark (board g') "X" = 5%nat /\
            count_mark (board g') "O" = 4%nat)
    end.
Proof.
  intros Hfuel Hreach He.
  destruct (partB_reached_safe fuel n g Hfuel Hreach)
    as (Hturn & Hok & HX & HO & _ & Hval & HcX & HcO).
  destruct e as [| |row col|];
    [by exists g, PartA.Rejected, [] | by exists g, PartA.Rejected, []
    | | done].
  rewrite partB_step_spec by (by try apply board_ok_is3x3).
  destruct (entry_ok (board g) row col) eqn:Hentry;
    [|by exists g, PartA.Rejected, []].
  apply entry_ok_legal in Hentry.
  destruct (round_not_lost g _ Hturn Hok HX HO Hval ltac:(lia) Hentry)
    as (g1 & p & msg1 & Hround & Hok1 & HX1 & HcX1 & Hp).
  rewrite Hround. exists g1, p, msg1. split; [reflexivity|].
  destruct p; [destruct Hp | by destruct Hp |].
  split; [exact HX1|].
  destruct Hp as [(-> & Ht & HO1 & HcO1) | (-> & Ht & HO1 & Hfull1 & HcO1)].
  - left. repeat split; try assumption; lia.
  - right. pose proof (count_three_ways _ Hok1) as Hsum.
    apply isFull_legal_moves in Hfull1 as Hnil. unfold count_empty in Hsum.
    rewrite Hnil in Hsum. cbn [length] in Hsum.
    repeat split; try assumption; lia.
Qed.

Lemma partB_playGame_from (fuel : nat) (inputs : list PartA.entry) :
  (9 <= fuel)%nat ->
  forall n g,
    PartB.reached fuel n g ->
    match PartB.playGame_from fuel inputs g with
    | Ret (g', msg) =>
        exists n' g0 e,
          (n <= n')%nat /\ PartB.reached fuel n' g0 /\
          PartB.playGame_step fuel g0 e = Ret (g', PartA.Ended, msg)
    | Raise x => x = EOFError \/ x = ValueError /\ In PartA.NotInt inputs
    | OutOfFuel => False
    end.
Proof.
  intros Hfuel.
  induction inputs as [|e inputs IH]; intros n g Hreach; [by left|].
  cbn [PartB.playGame_from].
  assert (e = PartA.NotInt \/ e <> PartA.NotInt) as [-> | He]
    by (destruct e; auto; by right).
  { right. split; [reflexivity | by left]. }
  destruct (partB_step_cases fuel n g e Hfuel Hreach He)
    as (g1 & p & msg1 & Hstep & Hp).
  rewrite Hstep, bind_Ret.
  assert (forall k h,
            PartB.reached fuel k h -> (n <= k)%nat ->
            match PartB.playGame_from fuel inputs h with
            | Ret (g', msg) =>
                exists n' g0 e0,
                  (n <= n')%nat /\ PartB.reached fuel n' g0 /\
                  PartB.playGame_step fuel g0 e0 = Ret (g', PartA.Ended, msg)
            | Raise x =>
                x = EOFError
                \/ x = ValueError /\ In PartA.NotInt (e :: inputs)
            | OutOfFuel => False
            end) as Hrest.
  { intros k h Hk Hle. specialize (IH k h Hk).
    destruct (PartB.playGame_from fuel inputs h) as [[g' msg]|x|];
      [|by destruct IH as [? | [? ?]]; [left | right; split; [|right]]
       |exact IH].
    destruct IH as (n' & g0 & e0 & Hle' & Hn' & He0).
    exists n', g0, e0. split; [lia | auto]. }
  destruct p.
  - subst g1. by apply (Hrest n g).
  - apply (Hrest (S n) g1); [|lia]. eapply PartB.reached_round; eauto.
  - exists n, g, e. auto.
Qed.

Lemma partB_playGame_from_cons (fuel : nat) (e : PartA.entry)
    (rest : list PartA.entry) (g : Game) :
  PartB.playGame_from fuel (e :: rest) g =
    '(g', p, msg) ← PartB.playGame_step fuel g e;
    match p with
    | PartA.Ended => Ret (g', msg)
    | _ => PartB.playGame_from fuel rest g'
    end.
Proof. reflexivity. Qed.

Lemma opening_round :
  PartB.playGame_step 9 new_game (PartA.Entry 1 1)
  = Ret (after_one_round, PartA.Continues, []).
Proof. vm_compute. reflexivity. Qed.

Lemma reached_one_round : PartB.reached 9 1 after_one_round.
Proof.
  apply (PartB.reached_round 9 0 new_game (PartA.Entry 1 1) _ []).
  - apply PartB.reached_start.
  - exact opening_round.
Qed.

(** X10.  While PartB's [playGame] waits for the human, after [n] rounds,
    it is X's turn on a 3x3 board over {X, O, empty} with [n] marks of
    each player, no completed line and an empty cell; so at most four
    rounds leave the game waiting. *)
Theorem partB_waiting_invariant (fuel n : nat) (g : Game) :
  (9 <= fuel)%nat -> PartB.reached fuel n g ->
  turn g = "X" /\ board_ok (board g) = true /\
  hasWin (board g) "X" = false /\ hasWin (board g) "O" = false /\
  isFull (board g) = false /\
  count_mark (board g) "X" = n /\ count_mark (board g) "O" = n /\
  (n <= 4)%nat.
Proof.
  intros Hfuel Hreach.
  destruct (partB_reached_safe fuel n g Hfuel Hreach)
    as (Hturn & Hok & HX & HO & Hfull & _ & HcX & HcO).
  pose proof (count_three_ways _ Hok) as Hsum.
  destruct (isFull_count_empty _ Hfull) as [d Hd].
  repeat split; try assumption. lia.
Qed.

Lemma partB_waiting_invariant_witness :
  PartB.reached 9 1 after_one_round /\
  count_mark (board after_one_round) "X" = 1%nat /\
  count_mark (board after_one_round) "O" = 1%nat.
Proof.
  split; [exact reached_one_round|].
  pose proof (partB_waiting_invariant 9 1 after_one_round (le_n 9)
                reached_one_round) as (_ & _ & _ & _ & _ & HcX & HcO & _).
  split; [exact HcX | exact HcO].
Defined.

Lemma sample_game :
  PartB.playGame 9
    [PartA.Entry 1 1; PartA.Entry 5 5; PartA.Entry 0 1; PartA.Entry 0 2;
     PartA.Blank; PartA.Entry 1 0]
  = Ret (o_wins, ["O IS THE WINNER!!!"]).
Proof.
  unfold PartB.playGame.
  rewrite partB_playGame_from_cons, opening_round, bind_Ret.
  vm_compute. reflexivity.
Qed.

(** X11.  The computer never loses.  When PartB's [playGame] returns, X
    has no completed line: either [checkEnd] announced O as the winner,
    O has a completed line and both players have as many marks, or it
    announced a draw on a full board of five X and four O.  The only
    exceptions that leave [playGame] are the EOFError of [input()] when
    the lines run out before the game has ended and the ValueError of
    [int]; the board is never indexed out of range. *)
Theorem computer_never_loses (fuel : nat) (inputs : list PartA.entry) :
  (9 <= fuel)%nat ->
  match PartB.playGame fuel inputs with
  | Ret (g, msg) =>
      hasWin (board g) "X" = false /\
      (msg = win_message "O" /\ turn g = "O" /\
       hasWin (board g) "O" = true /\
       count_mark (board g) "X" = count_mark (board g) "O"
       \/ msg = draw_message /\ turn g = "X" /\
          hasWin (board g) "O" = false /\ isFull (board g) = true /\
          count_mark (board g) "X" = 5%nat /\
          count_mark (board g) "O" = 4%nat)
  | Raise x => x = EOFError \/ x = ValueError /\ In PartA.NotInt inputs
  | OutOfFuel => False
  end.
Proof.
  intros Hfuel. unfold PartB.playGame.
  pose proof (partB_playGame_from fuel inputs Hfuel 0 new_game
                (PartB.reached_start fuel)) as Hrun.
  destruct (PartB.playGame_from fuel inputs new_game) as [[g msg]|x|];
    [|exact Hrun|exact Hrun].
  destruct Hrun as (n & g0 & e & _ & Hn & Hstep).
  assert (e <> PartA.NotInt) as He by (by intros ->).
  destruct (partB_step_cases fuel n g0 e Hfuel Hn He)
    as (g1 & p & msg1 & Hstep1 & Hp).
  rewrite Hstep in Hstep1. injection Hstep1 as <- <- <-.
  destruct Hp as [HX Hend]. split; [exact HX|].
  destruct Hend as [(Hm & Ht & HO & HcX & HcO) | Hdraw]; [left | by right].
  repeat split; try assumption. lia.
Qed.

Lemma computer_never_loses_witness :
  PartB.playGame 9
    [PartA.Entry 1 1; PartA.Entry 5 5; PartA.Entry 0 1; PartA.Entry 0 2;
     PartA.Blank; PartA.Entry 1 0]
  = Ret (o_wins, ["O IS THE WINNER!!!"]) /\
  hasWin (board o_wins) "X" = false.
Proof.
  pose proof (computer_never_loses 9
                [PartA.Entry 1 1; PartA.Entry 5 5; PartA.Entry 0 1;
                 PartA.Entry 0 2; PartA.Blank; PartA.Entry 1 0] (le_n 9))
    as H.
  rewrite sample_game in H.
  split; [exact sample_game | exact (proj1 H)].
Defined.

(** ** The move of the trained model (PartC) *)

Lemma class_label_cases (idx : Z) :
  (-9 <= idx <= 8)%Z ->
  In idx [-9; -8; -7; -6; -5; -4; -3; -2; -1; 0; 1; 2; 3; 4; 5; 6; 7; 8]%Z.
Proof. intros H. simpl. lia. Qed.

Lemma class_cell_In (idx : Z) : In (class_cell idx) cells.
Proof.
  unfold class_cell. rewrite cells_eq.
  pose proof (Z.mod_pos_bound (idx / 3) 3 eq_refl) as Hr.
  pose proof (Z.mod_pos_bound idx 3 eq_refl) as Hc.
  assert (In (Z.to_nat ((idx / 3) mod 3)) [0; 1; 2]%nat) as Hr'
    by (simpl; lia).
  assert (In (Z.to_nat (idx mod 3)) [0; 1; 2]%nat) as Hc' by (simpl; lia).
  simpl in Hr', Hc'.
  destruct Hr' as [<- | [<- | [<- | []]]];
    destruct Hc' as [<- | [<- | [<- | []]]]; simpl; tauto.
Qed.

Lemma getZ_cell (b : Board) (idx : Z) :
  is3x3 b = true -> (-9 <= idx <= 8)%Z ->
  getZ b (idx / 3) (idx mod 3) = Ret (cell b (class_cell idx)).
Proof.
  intros Hb H. board_cells b Hb. apply class_label_cases in H. simpl in H.
  repeat (destruct H as [<- | H]; [reflexivity|]). destruct H.
Qed.

Lemma setZ_place (b : Board) (idx : Z) (v : Cell) :
  is3x3 b = true -> (-9 <= idx <= 8)%Z ->
  setZ b (idx / 3) (idx mod 3) v = Ret (place b (class_cell idx) v).
Proof.
  intros Hb H. board_cells b Hb. apply class_label_cases in H. simpl in H.
  repeat (destruct H as [<- | H]; [reflexivity|]). destruct H.
Qed.

Lemma getZ_out_of_range (b : Board) (idx : Z) :
  is3x3 b = true -> (idx < -9 \/ 8 < idx)%Z ->
  getZ b (idx / 3) (idx mod 3) = Raise IndexError.
Proof.
  intros Hb H. board_cells b Hb. unfold getZ, getitemZ. cbn [length].
  destruct H as [H | H].
  - assert (idx / 3 < -3)%Z as Hr
      by (apply Z.div_lt_upper_bound; lia).
    destruct (Z.leb_spec 0 (idx / 3)); [lia|].
    destruct (Z.leb_spec (- Z.of_nat 3) (idx / 3)); [lia | reflexivity].
  - assert (3 <= idx / 3)%Z as Hr by (apply Z.div_le_lower_bound; lia).
    destruct (Z.leb_spec 0 (idx / 3)); [|lia].
    unfold getitem. rewrite lookup_ge_None_2; [reflexivity|].
    cbn [length]. lia.
Qed.

Lemma try_ranked_spec (b : Board) (ranked : list Z) :
  is3x3 b = true -> Forall (fun idx => (-9 <= idx <= 8)%Z) ranked ->
  PartC.try_ranked ranked b =
    Ret (match first_open b ranked with
         | Some idx =>
             Some (place b (class_cell idx) "O", (idx / 3)%Z, (idx mod 3)%Z)
         | None => None
         end).
Proof.
  intros Hb. induction 1 as [|idx ranked Hidx _ IH]; [reflexivity|].
  cbn [PartC.try_ranked first_open List.find]. cbn zeta.
  rewrite getZ_cell, bind_Ret by assumption.
  destruct (cell b (class_cell idx) =? " "); [|exact IH].
  by rewrite setZ_place, bind_Ret by assumption.
Qed.

Lemma try_ranked_raise (b : Board) (pre rest : list Z) (idx : Z) :
  is3x3 b = true -> Forall (fun idx => (-9 <= idx <= 8)%Z) pre ->
  first_open b pre = None -> (idx < -9 \/ 8 < idx)%Z ->
  PartC.try_ranked (pre ++ idx :: rest)%list b = Raise IndexError.
Proof.
  intros Hb Hpre Hnone Hidx.
  induction Hpre as [|i pre Hi _ IH]; cbn [app PartC.try_ranked]; cbn zeta.
  - by rewrite getZ_out_of_range.
  - cbn [first_open List.find] in Hnone.
    rewrite getZ_cell, bind_Ret by assumption.
    destruct (cell b (class_cell i) =? " "); [discriminate|].
    by apply IH.
Qed.

Lemma features_spec (g : Game) :
  board_ok (board g) = true ->
  PartC.board_to_model_features g =
    Ret ((fun q => feature (cell (board g) q)) <$> cells).
Proof.
  intros Hok. pose proof (board_ok_is3x3 _ Hok) as Hb.
  unfold PartC.board_to_model_features.
  apply comprehension_Ret. intros r c Hq.
  rewrite get_cell, bind_Ret by assumption.
  by apply mapping_at_feature, board_ok_cell.
Qed.

Lemma first_open_Some (b : Board) (ranked : list Z) (idx : Z) :
  first_open b ranked = Some idx ->
  In idx ranked /\ In (class_cell idx) (legal_moves b).
Proof.
  intros H. apply find_some in H as [Hin Hc]. split; [exact Hin|].
  apply legal_moves_In. split; [apply class_cell_In|].
  by apply String.eqb_eq.
Qed.

Lemma model_move_full (rank : list Z -> list Z) (k : nat) (g : Game) :
  is3x3 (board g) = true -> isFull (board g) = true ->
  PartC.model_move rank k g = Ret (g, PartC.NoMove).
Proof.
  intros Hb Hfull. unfold PartC.model_move, PartC.get_available_moves.
  rewrite available_from_spec, bind_Ret by (assumption || apply incl_refl).
  apply isFull_legal_moves in Hfull. unfold legal_moves in Hfull.
  by rewrite Hfull.
Qed.

Lemma model_move_open (rank : list Z -> list Z) (k : nat) (g : Game) :
  board_ok (board g) = true -> isFull (board g) = false ->
  PartC.model_move rank k g =
    hit ← PartC.try_ranked
             (rank ((fun q => feature (cell (board g) q)) <$> cells))
             (board g);
    match hit with
    | Some (b', r, c) => Ret (mkGame b' (turn g), PartC.Placed r c)
    | None =>
        match legal_moves (board g) !! k with
        | Some q =>
            Ret (mkGame (place (board g) q "O") (turn g),
                 PartC.FellBack q.1 q.2)
        | None => Raise IndexError
        end
    end.
Proof.
  intros Hok Hfull. pose proof (board_ok_is3x3 _ Hok) as Hb.
  unfold PartC.model_move, PartC.get_available_moves.
  rewrite available_from_spec, bind_Ret by (assumption || apply incl_refl).
  fold (legal_moves (board g)).
  destruct (legal_moves (board g)) as [|q0 moves] eqn:Hmoves.
  { apply isFull_legal_moves in Hmoves. congruence. }
  rewrite features_spec, bind_Ret by assumption.
  destruct (PartC.try_ranked _ (board g)) as [[[[b' r] c]|]| |];
    try reflexivity.
  cbn [mbind res_bind]. unfold getitem.
  destruct ((q0 :: moves) !! k) as [[r c]|] eqn:Hk; [|reflexivity].
  assert (In (r, c) (legal_moves (board g))) as Hq.
  { rewrite Hmoves. apply list_elem_of_In. by eapply list_elem_of_lookup_2. }
  apply legal_moves_In in Hq as [Hq _].
  cbn [mbind res_bind]. by rewrite set_place, bind_Ret.
Qed.

(** X12.  On a 3x3 board over {X, O, empty} with an empty cell, when the
    model's labels are between -9 and 8 and [random.choice] draws within
    the available moves, [model_move] places exactly one O, on an empty
    cell: the cell of the first ranked label whose cell is empty, or,
    when every ranked label addresses a taken cell, the drawn available
    move.  No other cell changes and the turn is left as it was. *)
Theorem model_move_places_one (rank : list Z -> list Z) (k : nat) (g : Game) :
  board_ok (board g) = true -> isFull (board g) = false ->
  Forall (fun idx => (-9 <= idx <= 8)%Z)
    (rank ((fun q => feature (cell (board g) q)) <$> cells)) ->
  (k < length (legal_moves (board g)))%nat ->
  exists q rep,
    PartC.model_move rank k g
      = Ret (mkGame (place (board g) q "O") (turn g), rep) /\
    In q (legal_moves (board g)) /\
    match first_open (board g)
            (rank ((fun q => feature (cell (board g) q)) <$> cells)) with
    | Some idx =>
        q = class_cell idx /\ rep = PartC.Placed (idx / 3) (idx mod 3)
    | None =>
        legal_moves (board g) !! k = Some q /\ rep = PartC.FellBack q.1 q.2
    end /\
    cell (place (board g) q "O") q = "O" /\
    (forall q', q' <> q -> cell (place (board g) q "O") q' = cell (board g) q') /\
    count_mark (place (board g) q "O") "O" = S (count_mark (board g) "O") /\
    count_mark (place (board g) q "O") "X" = count_mark (board g) "X".
Proof.
  intros Hok Hfull Hrank Hk. pose proof (board_ok_is3x3 _ Hok) as Hb.
  rewrite model_move_open by assumption.
  rewrite try_ranked_spec, bind_Ret by assumption.
  assert (forall q, In q (legal_moves (board g)) ->
            cell (place (board g) q "O") q = "O" /\
            (forall q', q' <> q ->
               cell (place (board g) q "O") q' = cell (board g) q') /\
            count_mark (place (board g) q "O") "O"
              = S (count_mark (board g) "O") /\
            count_mark (place (board g) q "O") "X"
              = count_mark (board g) "X") as Hplace.
  { intros q Hq. pose proof Hq as Hin.
    apply legal_moves_In in Hin as [Hin _].
    split; [by apply cell_place_same|].
    split; [intros q' Hne; by apply cell_place_other|].
    split; [by apply count_mark_place_same|].
    by apply count_mark_place_other. }
  destruct (first_open (board g) _) as [idx|] eqn:Hopen.
  - apply first_open_Some in Hopen as [_ Hq].
    exists (class_cell idx), (PartC.Placed (idx / 3) (idx mod 3)).
    split; [reflexivity|]. split; [exact Hq|]. split; [by split|].
    by apply Hplace.
  - destruct (lookup_lt_is_Some_2 (legal_moves (board g)) k Hk) as [q Hq].
    rewrite Hq. exists q, (PartC.FellBack q.1 q.2).
    assert (In q (legal_moves (board g))) as Hin
      by (apply list_elem_of_In; by eapply list_elem_of_lookup_2).
    split; [reflexivity|]. split; [exact Hin|]. split; [by split|].
    by apply Hplace.
Qed.

Lemma model_move_places_one_witness :
  board_ok (board (mkGame midgame "X")) = true /\
  isFull midgame = false /\
  exists q rep,
    PartC.model_move (fun _ => [4; 1; 5; 0]%Z) 0 (mkGame midgame "X")
      = Ret (mkGame (place midgame q "O") "X", rep) /\
    In q (legal_moves midgame).
Proof.
  split; [reflexivity|]. split; [reflexivity|].
  destruct (model_move_places_one (fun _ => [4; 1; 5; 0]%Z) 0
              (mkGame midgame "X") eq_refl eq_refl)
    as (q & rep & Hmove & Hq & _).
  - repeat constructor; cbn; lia.
  - vm_compute. lia.
  - exists q, rep. split; [exact Hmove | exact Hq].
Defined.

(** X13.  Edge cases of [model_move].  On a full 3x3 board it returns at
    once and changes nothing, whatever the cells hold.  A label from -9
    to -1 is not rejected: Python's negative indexing makes it address
    the cell of the label plus 9, and the report names the negative row.
    A label below -9 or above 8 that is reached before any label of an
    empty cell raises IndexError. *)
Theorem model_move_edge_cases (rank : list Z -> list Z) (k : nat) (g : Game) :
  is3x3 (board g) = true ->
  (isFull (board g) = true ->
   PartC.model_move rank k g = Ret (g, PartC.NoMove)) /\
  (board_ok (board g) = true -> isFull (board g) = false ->
   forall idx rest,
     rank ((fun q => feature (cell (board g) q)) <$> cells) = idx :: rest ->
     (-9 <= idx < 0)%Z -> cell (board g) (class_cell (idx + 9)) = " " ->
     PartC.model_move rank k g
       = Ret (mkGame (place (board g) (class_cell (idx + 9)) "O") (turn g),
              PartC.Placed (idx / 3) (idx mod 3)) /\
     (idx / 3 < 0)%Z) /\
  (board_ok (board g) = true -> isFull (board g) = false ->
   forall pre idx rest,
     rank ((fun q => feature (cell (board g) q)) <$> cells)
       = (pre ++ idx :: rest)%list ->
     Forall (fun i => (-9 <= i <= 8)%Z) pre ->
     first_open (board g) pre = None ->
     (idx < -9 \/ 8 < idx)%Z ->
     PartC.model_move rank k g = Raise IndexError).
Proof.
  intros Hb. split; [|split].
  - intros Hfull. by apply model_move_full.
  - intros Hok Hfull idx rest Hrank Hidx Hc.
    assert (class_cell (idx + 9) = class_cell idx) as Hsame.
    { unfold class_cell.
      replace (idx + 9)%Z with (idx + 3 * 3)%Z by lia.
      rewrite Z.div_add, Z_mod_plus_full by lia.
      replace (idx / 3 + 3)%Z with (idx / 3 + 1 * 3)%Z by lia.
      by rewrite Z_mod_plus_full. }
    rewrite Hsame in *. split.
    + rewrite model_move_open, Hrank by assumption.
      cbn [PartC.try_ranked]. cbn zeta.
      rewrite getZ_cell, bind_Ret, Hc by (assumption || lia).
      cbn [String.eqb Ascii.eqb Bool.eqb].
      by rewrite setZ_place, !bind_Ret by (assumption || lia).
    + apply Z.div_lt_upper_bound; lia.
  - intros Hok Hfull pre idx rest Hrank Hpre Hnone Hidx.
    rewrite model_move_open, Hrank by assumption.
    by rewrite try_ranked_raise.
Qed.

Lemma model_move_edge_cases_witness :
  is3x3 (board (mkGame midgame "X")) = true /\
  PartC.model_move (fun _ => [-1; 4]%Z) 0 (mkGame midgame "X")
    = Ret (mkGame (place midgame (2, 2)%nat "O") "X", PartC.Placed (-1) 2) /\
  PartC.model_move (fun _ => [4; 9]%Z) 0 (mkGame midgame "X")
    = Raise IndexError.
Proof.
  split; [reflexivity|].
  pose proof (model_move_edge_cases (fun _ => [-1; 4]%Z) 0
                (mkGame midgame "X") eq_refl) as (_ & Hneg & _).
  pose proof (model_move_edge_cases (fun _ => [4; 9]%Z) 0
                (mkGame midgame "X") eq_refl) as (_ & _ & Hout).
  split.
  - exact (proj1 (Hneg eq_refl eq_refl (-1)%Z [4%Z] eq_refl
                    ltac:(lia) eq_refl)).
  - apply (Hout eq_refl eq_refl [4%Z] 9%Z []); [reflexivity | | reflexivity | lia].
    repeat constructor; lia.
Defined.

Lemma mapping_at_missing (x : Cell) :
  valid_cell x = false -> PartC.mapping_at x = Raise KeyError.
Proof.
  unfold valid_cell. intros H.
  apply orb_false_iff in H as [H HO]. apply orb_false_iff in H as [HE HX].
  apply String.eqb_neq in HO, HX, HE.
  unfold PartC.mapping_at, PartC.mapping.
  rewrite lookup_insert_ne by congruence.
  rewrite lookup_insert_ne by congruence.
  by rewrite lookup_singleton_ne by congruence.
Qed.

Lemma features_from (b : Board) (cs : list (nat * nat)) :
  is3x3 b = true -> incl cs cells ->
  PartC.comprehension (fun r c => x ← get b r c; PartC.mapping_at x) cs =
    if forallb (fun q => valid_cell (cell b q)) cs
    then Ret ((fun q => feature (cell b q)) <$> cs)
    else Raise KeyError.
Proof.
  intros Hb. induction cs as [|[r c] cs IH]; intros Hcs; [reflexivity|].
  cbn [PartC.comprehension forallb].
  rewrite get_cell, bind_Ret by (assumption || (apply Hcs; simpl; auto)).
  destruct (valid_cell (cell b (r, c))) eqn:Hv; cbn [andb].
  - rewrite mapping_at_feature, bind_Ret by assumption.
    rewrite IH by (intros x Hx; apply Hcs; simpl; auto).
    by destruct (forallb _ cs).
  - by rewrite mapping_at_missing.
Qed.

Lemma board_ok_cells (b : Board) :
  is3x3 b = true ->
  board_ok b = forallb (fun q => valid_cell (cell b q)) cells.
Proof.
  intros Hb. unfold board_ok. rewrite Hb. board_cells b Hb.
  rewrite cells_eq. cbn [forallb andb cell fst snd].
  cbn [lookup list_lookup mbind option_bind default].
  by rewrite ?andb_true_r, ?andb_assoc.
Qed.

(** X14.  [board_to_model_features] looks every cell up in its
    dictionary: on a 3x3 board it returns the nine features when all
    cells are X, O or empty and raises KeyError as soon as one cell
    holds anything else.  [model_move] then raises KeyError too, unless
    the board is full, where it returns before it computes the
    features. *)
Theorem features_missing_key (rank : list Z -> list Z) (k : nat) (g : Game) :
  is3x3 (board g) = true ->
  PartC.board_to_model_features g =
    (if board_ok (board g)
     then Ret ((fun q => feature (cell (board g) q)) <$> cells)
     else Raise KeyError) /\
  (board_ok (board g) = false ->
   PartC.model_move rank k g =
     if isFull (board g) then Ret (g, PartC.NoMove) else Raise KeyError).
Proof.
  intros Hb.
  assert (PartC.board_to_model_features g =
          if board_ok (board g)
          then Ret ((fun q => feature (cell (board g) q)) <$> cells)
          else Raise KeyError) as Hfeat.
  { rewrite board_ok_cells by assumption.
    by apply features_from, incl_refl. }
  split; [exact Hfeat|]. intros Hbad. rewrite Hbad in Hfeat.
  destruct (isFull (board g)) eqn:Hfull; [by apply model_move_full|].
  unfold PartC.model_move, PartC.get_available_moves.
  rewrite available_from_spec, bind_Ret by (assumption || apply incl_refl).
  fold (legal_moves (board g)).
  destruct (legal_moves (board g)) as [|q0 moves] eqn:Hmoves.
  { apply isFull_legal_moves in Hmoves. congruence. }
  by rewrite Hfeat.
Qed.

Lemma features_missing_key_witness :
  is3x3 [["X"; "x"; " "]; [" "; "O"; " "]; [" "; " "; " "]] = true /\
  PartC.board_to_model_features
    (mkGame [["X"; "x"; " "]; [" "; "O"; " "]; [" "; " "; " "]] "X")
    = Raise KeyError.
Proof.
  split; [reflexivity|].
  exact (proj1 (features_missing_key (fun _ => []) 0
                  (mkGame [["X"; "x"; " "]; [" "; "O"; " "]; [" "; " "; " "]]
                     "X") eq_refl)).
Defined.

(** ** The exceptions of the game loop (PartA) *)

(** X15.  The only exceptions that leave PartA's [playGame] are the
    EOFError of [input()], when the lines run out before the game has
    ended, and the ValueError of [int]; whatever the entries, in or out
    of range, the board is never indexed out of range.  When [playGame]
    returns, the board is a 3x3 board over {X, O, empty} and the game
    has ended with a completed line of the player whose turn it is or
    with a full board. *)
Theorem partA_playGame_exceptions (inputs : list PartA.entry) :
  match PartA.playGame inputs with
  | Ret g =>
      board_ok (board g) = true /\
      (hasWin (board g) (turn g) = true \/ isFull (board g) = true)
  | Raise x => x = EOFError \/ x = ValueError /\ In PartA.NotInt inputs
  | OutOfFuel => False
  end.
Proof.
  unfold PartA.playGame.
  assert (forall inputs n g,
            PartA.reached n g ->
            match PartA.playGame_from inputs g with
            | Ret g' =>
                board_ok (board g') = true /\
                (hasWin (board g') (turn g') = true
                 \/ isFull (board g') = true)
            | Raise x =>
                x = EOFError \/ x = ValueError /\ In PartA.NotInt inputs
            | OutOfFuel => False
            end) as Hall.
  { clear inputs.
    induction inputs as [|e inputs IH]; intros n g Hreach; [by left|].
    pose proof (partA_reached_board_ok n g Hreach) as Hok.
    pose proof (board_ok_is3x3 _ Hok) as Hb.
    assert (forall k h,
              PartA.reached k h ->
              match PartA.playGame_from inputs h with
              | Ret g' =>
                  board_ok (board g') = true /\
                  (hasWin (board g') (turn g') = true
                   \/ isFull (board g') = true)
              | Raise x =>
                  x = EOFError
                  \/ x = ValueError /\ In PartA.NotInt (e :: inputs)
              | OutOfFuel => False
              end) as Hrest.
    { intros k h Hk. specialize (IH k h Hk).
      destruct (PartA.playGame_from inputs h) as [g'|x|];
        [exact IH | | exact IH].
      destruct IH as [? | [? ?]]; [by left | right; split; [|right]]; auto. }
    cbn [PartA.playGame_from].
    destruct (PartA.playGame_step g e) as [[g1 p]| |] eqn:Hstep.
    - rewrite bind_Ret. destruct p.
      + apply playGame_step_rejected in Hstep as ->. by apply (Hrest n).
      + apply (Hrest (S n)). by apply (PartA.reached_accepted n g e).
      + pose proof (reached_turn n g Hreach) as Hturn.
        apply partA_step_ended in Hstep as (q & Hq & -> & Hend);
          [|assumption].
        apply legal_moves_In in Hq as [Hq _]. cbn [board turn] in *.
        split.
        * apply board_ok_place; try assumption.
          rewrite Hturn. by destruct (Nat.even n).
        * destruct Hend as [Hwin | [_ Hfull]]; auto.
    - destruct e as [| |row col|]; try discriminate.
      + by rewrite partA_step_spec in Hstep.
      + injection Hstep as <-. right. split; [reflexivity | by left].
    - destruct e as [| |row col|]; try discriminate.
      by rewrite partA_step_spec in Hstep. }
  apply (Hall inputs 0%nat new_game). apply PartA.reached_start.
Qed.
